(** * count.py: release statistics gathered from Gerrit

    A shallow embedding of [count.py], the single script of
    openstack-release-summarizer, and the properties of its
    fetch / aggregate / sort / format pipeline.

    Conventions of the embedding.
    - Python integers are [Z]; Python floats are exact rationals [Q]
      (rounding is not modelled); strings are [string].
    - The values [json.loads] produces are the inductive type [json].
    - A Python [dict] keeps its keys in insertion order: it is an association
      list without repeated keys, see [Dict].
    - An exception aborts the run: every fallible step returns [option], and
      [None] stands for the aborted run; what an aborted run has printed
      before the exception is not kept.
    - The network (behind the dogpile cache) is a function from a URL to the
      body of the response, fixed for the duration of one run; [json.loads]
      is a parameter as well.  The theorems hold for every network and every
      decoder; [JsonReader.loads] is a small decoder to run the script on
      concrete response bodies.
    - Account ids, change numbers and line counts are JSON integers and the
      containers have the shape Gerrit documents (objects, arrays).  On a
      value of another shape the model stops with [None].  The body of a
      change query is walked the way [reviews += ...] walks it, whatever
      iterable it decodes to. *)

From Stdlib Require Import ZArith List String Ascii Bool Lia QArith.
From Stdlib Require Import Permutation Sorted DecimalString.
From Stdlib Require Import Qabs Qround Lqa.
Import ListNotations.

Local Open Scope string_scope.
Local Open Scope list_scope.
Local Open Scope Z_scope.

(** ** Exceptions as [option] *)

Definition bind {A B : Type} (m : option A) (k : A -> option B) : option B :=
  match m with
  | Some a => k a
  | None => None
  end.

Notation "x <- m ;; k" := (bind m (fun x => k))
  (at level 61, m at next level, right associativity).

(** [for x in l: st = body(st, x)], stopping at the first exception. *)
Fixpoint for_each {S A : Type} (body : S -> A -> option S) (l : list A) (st : S)
  : option S :=
  match l with
  | [] => Some st
  | x :: rest => st' <- body st x ;; for_each body rest st'
  end.

(** ** Python dictionaries, in insertion order *)

Module Dict.
Section WithKey.
Context {K V : Type}.
Variable eqb : K -> K -> bool.

Fixpoint get (k : K) (d : list (K * V)) : option V :=
  match d with
  | [] => None
  | (k', v) :: rest => if eqb k k' then Some v else get k rest
  end.

(** [k in d.keys()] *)
Fixpoint mem (k : K) (d : list (K * V)) : bool :=
  match d with
  | [] => false
  | (k', _) :: rest => if eqb k k' then true else mem k rest
  end.

(** [d[k] = v]: an existing key keeps its place, a new key goes last. *)
Fixpoint set (k : K) (v : V) (d : list (K * V)) : list (K * V) :=
  match d with
  | [] => [(k, v)]
  | (k', v') :: rest =>
      if eqb k k' then (k', v) :: rest else (k', v') :: set k v rest
  end.

(** Mutation, through a reference, of the object stored at [k]. *)
Fixpoint adjust (f : V -> V) (k : K) (d : list (K * V)) : list (K * V) :=
  match d with
  | [] => []
  | (k', v') :: rest =>
      if eqb k k' then (k', f v') :: rest else (k', v') :: adjust f k rest
  end.

Definition keys (d : list (K * V)) : list K := map fst d.
Definition values (d : list (K * V)) : list V := map snd d.
End WithKey.
End Dict.

(** ** JSON values *)

#[warnings="-register-all"]
Inductive json : Type :=
| JNull
| JBool (b : bool)
| JInt (z : Z)
| JFloat (lexeme : string)
| JStr (s : string)
| JList (l : list json)
| JDict (d : list (string * json)).

(** [obj[key]] on a dict; [KeyError] and [TypeError] are [None]. *)
Definition getitem (obj : json) (key : string) : option json :=
  match obj with
  | JDict d => Dict.get String.eqb key d
  | _ => None
  end.

(** [key in obj] on a dict. *)
Definition contains (obj : json) (key : string) : option bool :=
  match obj with
  | JDict d => Some (Dict.mem String.eqb key d)
  | _ => None
  end.

Definition as_int (j : json) : option Z :=
  match j with
  | JInt z => Some z
  | _ => None
  end.

Definition as_list (j : json) : option (list json) :=
  match j with
  | JList l => Some l
  | _ => None
  end.

Definition as_str (j : json) : option string :=
  match j with
  | JStr s => Some s
  | _ => None
  end.

(** What [reviews += x] appends, as [list.extend] walks [x]: the elements of a
    list, the keys of a dict in the order they were first set, the characters
    of a string.  [None], a boolean and a number are not iterable. *)
Fixpoint first_keys (seen : list string) (d : list (string * json)) : list string :=
  match d with
  | [] => []
  | (k, _) :: rest =>
      if existsb (String.eqb k) seen then first_keys seen rest
      else k :: first_keys (k :: seen) rest
  end.

Fixpoint characters (s : string) : list json :=
  match s with
  | EmptyString => []
  | String c rest => JStr (String c EmptyString) :: characters rest
  end.

Definition iterate (j : json) : option (list json) :=
  match j with
  | JList l => Some l
  | JDict d => Some (map JStr (first_keys [] d))
  | JStr s => Some (characters s)
  | _ => None
  end.

(** ** Strings *)

(** ['%d' % z] and ['%s' % z] for an integer. *)
Definition str_of_int (z : Z) : string := NilZero.string_of_int (Z.to_int z).

(** [s[n:]] *)
Fixpoint drop (n : nat) (s : string) : string :=
  match n, s with
  | O, _ => s
  | S _, EmptyString => EmptyString
  | S n', String _ rest => drop n' rest
  end.

(** [s.replace(old, new)] for single characters. *)
Fixpoint replace_char (old new : ascii) (s : string) : string :=
  match s with
  | EmptyString => EmptyString
  | String c rest =>
      String (if Ascii.eqb c old then new else c) (replace_char old new rest)
  end.


(** [s.startswith(p)] *)
Fixpoint startswith (p s : string) : bool :=
  match p, s with
  | EmptyString, _ => true
  | String _ _, EmptyString => false
  | String a p', String b s' => Ascii.eqb a b && startswith p' s'
  end.

(** ** A JSON reader

    A recursive-descent reader for JSON text: literals, numbers, strings with
    the one-character escapes, arrays and objects.  An object is read the way
    [json.loads] builds a dict: a repeated key keeps its first place and its
    last value.  [\uXXXX] escapes are not read.  The fuel is the length of the
    text, and every recursive call follows at least one consumed character. *)

Module JsonReader.

Definition dquote : ascii := ascii_of_nat 34.
Definition backslash : ascii := ascii_of_nat 92.

Definition is_ws (c : ascii) : bool :=
  let n := nat_of_ascii c in
  Nat.eqb n 32 || Nat.eqb n 9 || Nat.eqb n 10 || Nat.eqb n 13.

Definition is_digit (c : ascii) : bool :=
  let n := nat_of_ascii c in Nat.leb 48 n && Nat.leb n 57.

Fixpoint skip_ws (s : string) : string :=
  match s with
  | String c rest => if is_ws c then skip_ws rest else s
  | EmptyString => s
  end.

(** The longest prefix of digits, and what follows it. *)
Fixpoint span_digits (s : string) : string * string :=
  match s with
  | String c rest =>
      if is_digit c
      then let (ds, tl) := span_digits rest in (String c ds, tl)
      else (EmptyString, s)
  | EmptyString => (EmptyString, s)
  end.

Fixpoint digits_value (acc : Z) (ds : string) : Z :=
  match ds with
  | String c rest => digits_value (10 * acc + Z.of_nat (nat_of_ascii c - 48)) rest
  | EmptyString => acc
  end.

Definition well_formed_int (ds : string) : bool :=
  match ds with
  | EmptyString => false
  | String c EmptyString => true
  | String c _ => negb (Ascii.eqb c "0")
  end.

(** The fraction and exponent of a number, when there is one. *)
Definition span_fraction (s : string) : option (string * string) :=
  match s with
  | String "." rest =>
      let (ds, tl) := span_digits rest in
      match ds with
      | EmptyString => None
      | _ => Some (("." ++ ds)%string, tl)
      end
  | _ => Some (EmptyString, s)
  end.

Definition span_exponent (s : string) : option (string * string) :=
  match s with
  | String e rest =>
      if Ascii.eqb e "e" || Ascii.eqb e "E" then
        let (sign, rest') :=
          match rest with
          | String "+" r => ("+", r)
          | String "-" r => ("-", r)
          | _ => (EmptyString, rest)
          end in
        let (ds, tl) := span_digits rest' in
        match ds with
        | EmptyString => None
        | _ => Some (String e (sign ++ ds)%string, tl)
        end
      else Some (EmptyString, s)
  | EmptyString => Some (EmptyString, s)
  end.

Definition read_number (s : string) : option (json * string) :=
  let (neg, s1) := match s with String "-" r => (true, r) | _ => (false, s) end in
  let (ds, s2) := span_digits s1 in
  if well_formed_int ds then
    fr <- span_fraction s2 ;;
    ex <- span_exponent (snd fr) ;;
    match fst fr, fst ex with
    | EmptyString, EmptyString =>
        Some (JInt (if neg then - digits_value 0 ds else digits_value 0 ds), s2)
    | f, e =>
        Some (JFloat ((if neg then "-" else EmptyString) ++ ds ++ f ++ e)%string, snd ex)
    end
  else None.

Definition unescape (c : ascii) : option ascii :=
  if Ascii.eqb c dquote then Some dquote
  else if Ascii.eqb c backslash then Some backslash
  else if Ascii.eqb c "/" then Some "/"%char
  else if Ascii.eqb c "b" then Some (ascii_of_nat 8)
  else if Ascii.eqb c "f" then Some (ascii_of_nat 12)
  else if Ascii.eqb c "n" then Some (ascii_of_nat 10)
  else if Ascii.eqb c "r" then Some (ascii_of_nat 13)
  else if Ascii.eqb c "t" then Some (ascii_of_nat 9)
  else None.

(** The characters of a string up to its closing quote. *)
Fixpoint read_chars (s : string) : option (string * string) :=
  match s with
  | EmptyString => None
  | String c rest =>
      if Ascii.eqb c dquote then Some (EmptyString, rest)
      else if Ascii.eqb c backslash then
        match rest with
        | String e rest' =>
            c' <- unescape e ;;
            r <- read_chars rest' ;;
            Some (String c' (fst r), snd r)
        | EmptyString => None
        end
      else if Nat.ltb (nat_of_ascii c) 32 then None
      else r <- read_chars rest ;; Some (String c (fst r), snd r)
  end.

Definition expect (p s : string) : option string :=
  if startswith p s then Some (drop (String.length p) s) else None.

Fixpoint read_value (fuel : nat) (s : string) : option (json * string) :=
  match fuel with
  | O => None
  | S fuel' =>
      match skip_ws s with
      | String "[" rest =>
          match skip_ws rest with
          | String "]" rest' => Some (JList [], rest')
          | _ => r <- read_elements fuel' rest ;; Some (JList (fst r), snd r)
          end
      | String "{" rest =>
          match skip_ws rest with
          | String "}" rest' => Some (JDict [], rest')
          | _ => r <- read_members fuel' [] rest ;; Some (JDict (fst r), snd r)
          end
      | String "t" rest => r <- expect "rue" rest ;; Some (JBool true, r)
      | String "f" rest => r <- expect "alse" rest ;; Some (JBool false, r)
      | String "n" rest => r <- expect "ull" rest ;; Some (JNull, r)
      | String c rest =>
          if Ascii.eqb c dquote
          then r <- read_chars rest ;; Some (JStr (fst r), snd r)
          else read_number (String c rest)
      | EmptyString => None
      end
  end

with read_elements (fuel : nat) (s : string) : option (list json * string) :=
  match fuel with
  | O => None
  | S fuel' =>
      v <- read_value fuel' s ;;
      match skip_ws (snd v) with
      | String "," rest =>
          r <- read_elements fuel' rest ;; Some (fst v :: fst r, snd r)
      | String "]" rest => Some ([fst v], rest)
      | _ => None
      end
  end

with read_members (fuel : nat) (acc : list (string * json)) (s : string)
  : option (list (string * json) * string) :=
  match fuel with
  | O => None
  | S fuel' =>
      match skip_ws s with
      | String q rest =>
          if Ascii.eqb q dquote then
            k <- read_chars rest ;;
            after_colon <- expect ":" (skip_ws (snd k)) ;;
            v <- read_value fuel' after_colon ;;
            let acc' := Dict.set String.eqb (fst k) (fst v) acc in
            match skip_ws (snd v) with
            | String "," rest' => read_members fuel' acc' rest'
            | String "}" rest' => Some (acc', rest')
            | _ => None
            end
          else None
      | EmptyString => None
      end
  end.

(** The whole text is one value, up to surrounding white space. *)
Definition loads (text : string) : option json :=
  r <- read_value (S (String.length text)) text ;;
  match skip_ws (snd r) with
  | EmptyString => Some (fst r)
  | _ => None
  end.

(** Text written with ['] for the string quote, to keep examples readable. *)
Definition quoted (s : string) : string := replace_char "'" dquote s.

End JsonReader.


(** ** The script [count.py] *)

(** [class Contributor]; [name] is whatever the account record holds under
    ['name'], it is used as a string only when a report line is printed. *)
Record Contributor : Type := mkContributor {
  account_id : Z;
  name : json;
  review_count : Z;
  commits : Z
}.

(** [Contributor.__init__] *)
Definition new_Contributor (account_id : Z) (name : json) : Contributor :=
  mkContributor account_id name 0 0.

(** [c.commits += 1] and [c.review_count += 1] *)
Definition incr_commits (c : Contributor) : Contributor :=
  mkContributor (account_id c) (name c) (review_count c) (commits c + 1).

Definition incr_review_count (c : Contributor) : Contributor :=
  mkContributor (account_id c) (name c) (review_count c + 1) (commits c).

(** The input file, as [parse_yaml] returns it. *)
Record Repository : Type := mkRepository {
  repo_name : string;
  release_date : string;
  start_date : string;
  stable_branch : bool
}.

Record Config : Type := mkConfig {
  release_name : string;
  ignored_users : list Z;
  repositories : list Repository
}.

(** The command line: [--reviews], [--commits], [--summary]. *)
Record Args : Type := mkArgs {
  collect_reviews : bool;
  collect_commits : bool;
  summary : bool
}.

(** The module-level variables of the script, and the trace [constructed] of
    the account ids [Contributor(...)] was called with, oldest first. *)
Record State : Type := mkState {
  total_commits : Z;
  total_reviews : Z;
  total_additions : Z;
  total_deletions : Z;
  project_additions : Z;
  project_deletions : Z;
  contributors : list (Z * Contributor);
  constructed : list Z
}.

Definition initial_state : State := mkState 0 0 0 0 0 0 [] [].

Definition with_contributors (d : list (Z * Contributor)) (st : State) : State :=
  mkState (total_commits st) (total_reviews st) (total_additions st)
    (total_deletions st) (project_additions st) (project_deletions st)
    d (constructed st).

Definition with_total_commits (n : Z) (st : State) : State :=
  mkState n (total_reviews st) (total_additions st)
    (total_deletions st) (project_additions st) (project_deletions st)
    (contributors st) (constructed st).

Definition with_total_reviews (n : Z) (st : State) : State :=
  mkState (total_commits st) n (total_additions st)
    (total_deletions st) (project_additions st) (project_deletions st)
    (contributors st) (constructed st).

Definition with_totals (a d : Z) (st : State) : State :=
  mkState (total_commits st) (total_reviews st) a d
    (project_additions st) (project_deletions st)
    (contributors st) (constructed st).

Definition with_project (a d : Z) (st : State) : State :=
  mkState (total_commits st) (total_reviews st) (total_additions st)
    (total_deletions st) a d (contributors st) (constructed st).

(** [c = Contributor(account_id, name); contributors[account_id] = c] *)
Definition construct (account_id : Z) (name : json) (st : State) : State :=
  mkState (total_commits st) (total_reviews st) (total_additions st)
    (total_deletions st) (project_additions st) (project_deletions st)
    (Dict.set Z.eqb account_id (new_Contributor account_id name) (contributors st))
    (constructed st ++ [account_id]).

(** [v.review_count > 0 or v.commits > 0] *)
Definition reportable (v : Contributor) : bool :=
  (0 <? review_count v) || (0 <? commits v).

(** [x in IGNORED_USERS] *)
Definition in_list (x : Z) (l : list Z) : bool := existsb (Z.eqb x) l.

Definition GERRIT : string := "https://review.openstack.org".

(** One line of a leaderboard: the tuple handed to ['%d,%s,%d,%f,%f']. *)
Record Line : Type := mkLine {
  rank : Z;
  line_name : string;
  line_count : Z;
  percentage : Q;
  running_percentage : Q
}.

(** [sorted(l, key=key, reverse=True)]: a stable sort, largest key first.
    Elements with equal keys keep the order they have in [l], which leaves one
    possible result (see [stable_descending_unique]); it is computed here by
    insertion. *)
Fixpoint insert_reverse {A : Type} (key : A -> Z) (x : A) (l : list A) : list A :=
  match l with
  | [] => [x]
  | y :: rest =>
      if key x <? key y then y :: insert_reverse key x rest else x :: y :: rest
  end.

Definition sorted_reverse {A : Type} (key : A -> Z) (l : list A) : list A :=
  fold_right (insert_reverse key) [] l.

(** The order of a list sorted on [key], largest first. *)
Definition descending {A : Type} (key : A -> Z) (a b : A) : Prop :=
  key b <= key a.

(** ** The leaderboard, as it is described

    The line of the contributor [c] that follows the contributors [before] in
    the sorted list: its rank is its position counted from one, its share is
    its count over the total, and the running share is the sum of the shares
    of the contributors printed up to this rank.  [strip] is what is done to
    the commas of a name. *)

Definition share (key : Contributor -> Z) (total : Z) (c : Contributor) : Q :=
  (inject_Z (key c) / inject_Z total)%Q.

Definition running_share (key : Contributor -> Z) (total : Z)
    (upto : list Contributor) : Q :=
  fold_left (fun acc c => (acc + share key total c)%Q)
            (filter (fun c => 0 <? key c) upto) 0%Q.

Definition name_text (c : Contributor) : string :=
  match name c with
  | JStr s => s
  | _ => EmptyString
  end.

Definition described_line (strip : string -> string) (key : Contributor -> Z)
    (total : Z) (before : list Contributor) (c : Contributor) : Line :=
  mkLine (Z.of_nat (List.length before) + 1) (strip (name_text c)) (key c)
         (share key total c) (running_share key total (before ++ [c])).

Fixpoint described_lines (strip : string -> string) (key : Contributor -> Z)
    (total : Z) (before rest : list Contributor) : list Line :=
  match rest with
  | [] => []
  | c :: rest' =>
      (if 0 <? key c then [described_line strip key total before c] else [])
      ++ described_lines strip key total (before ++ [c]) rest'
  end.

(** ** The loop in arithmetic that rounds

    The exact rationals above leave out the rounding of Python's floats.
    [Arith] is as much of an arithmetic as the loop of a leaderboard uses:
    [float(c)], [x / y], [x + y] and [0.0], with the rational each number
    stands for.  [leaderboard_in] is the loop of lines 166-177 and 181-192 in
    such an arithmetic; in [exact] it is [leaderboard]. *)

Record Arith : Type := mkArith {
  num : Type;
  of_int : Z -> num;
  fdiv : num -> num -> num;
  fadd : num -> num -> num;
  fzero : num;
  value : num -> Q
}.

Record RoundedLine (N : Type) : Type := mkRoundedLine {
  r_rank : Z;
  r_name : string;
  r_count : Z;
  r_percentage : N;
  r_running : N
}.

Arguments mkRoundedLine {N}.
Arguments r_rank {N}.
Arguments r_name {N}.
Arguments r_count {N}.
Arguments r_percentage {N}.
Arguments r_running {N}.

Fixpoint leaderboard_in (A : Arith) (key : Contributor -> Z) (total : Z) (i : Z)
    (running : num A) (sorted_list : list Contributor)
  : option (list (RoundedLine (num A))) :=
  match sorted_list with
  | [] => Some []
  | c :: rest =>
      if key c =? 0 then leaderboard_in A key total (i + 1) running rest
      else if total =? 0 then None
      else
        let percentage := fdiv A (of_int A (key c)) (of_int A total) in
        let running := fadd A running percentage in
        name_str <- as_str (name c) ;;
        let name := replace_char "," " " name_str in
        lines <- leaderboard_in A key total (i + 1) running rest ;;
        Some (mkRoundedLine i name (key c) percentage running :: lines)
  end.

Definition exact : Arith := mkArith Q inject_Z Qdiv Qplus 0%Q (fun q => q).

Definition exact_line (l : RoundedLine Q) : Line :=
  mkLine (r_rank l) (r_name l) (r_count l) (r_percentage l) (r_running l).

(** The contributors the loop prints a line for. *)
Definition printed (key : Contributor -> Z) (c : Contributor) : bool :=
  negb (key c =? 0).

(** The running percentage after the loop has walked [sorted_list]. *)
Fixpoint final_running (A : Arith) (key : Contributor -> Z) (total : Z)
    (running : num A) (sorted_list : list Contributor) : num A :=
  match sorted_list with
  | [] => running
  | c :: rest =>
      if key c =? 0 then final_running A key total running rest
      else final_running A key total
             (fadd A running (fdiv A (of_int A (key c)) (of_int A total))) rest
  end.

(** An arithmetic that rounds within [u]: integers up to [big] are exact, a
    quotient between 0 and 1 and a sum between -2 and 2 are off by at most
    [u].  Binary64 does, with [u] = 2^-52 and [big] = 2^53. *)
Record rounds_within (A : Arith) (u : Q) (big : Z) : Prop := mkRounds {
  zero_exact : (value A (fzero A) == 0)%Q;
  ints_exact :
    forall z, 0 <= z <= big -> (value A (of_int A z) == inject_Z z)%Q;
  div_rounds :
    forall x y,
    (0 < value A y)%Q -> (0 <= value A x)%Q -> (value A x <= value A y)%Q ->
    (Qabs (value A (fdiv A x y) - value A x / value A y) <= u)%Q;
  add_rounds :
    forall x y,
    (Qabs (value A x + value A y) <= 2)%Q ->
    (Qabs (value A (fadd A x y) - (value A x + value A y)) <= u)%Q
}.

(** ** Counting *)

Definition count_if {A : Type} (p : A -> bool) (l : list A) : Z :=
  Z.of_nat (List.length (filter p l)).

Definition sum_of {A : Type} (w : A -> Z) (l : list A) : Z :=
  fold_right (fun x acc => w x + acc) 0 l.

(** The counters of one account: zero while it has no [Contributor]. *)
Definition commits_of (st : State) (id : Z) : Z :=
  match Dict.get Z.eqb id (contributors st) with
  | Some c => commits c
  | None => 0
  end.

Definition reviews_of (st : State) (id : Z) : Z :=
  match Dict.get Z.eqb id (contributors st) with
  | Some c => review_count c
  | None => 0
  end.

(** No key of the contributor map is an ignored account. *)
Definition keys_not_ignored (ignored : list Z) (st : State) : bool :=
  forallb (fun k => negb (in_list k ignored)) (Dict.keys (contributors st)).

(** ** Recorded responses

    A Gerrit that knows one repository, to run the script on: change 102 is
    merged on both branches, change 103 belongs to an ignored account, and the
    thread of change 101 has a message without author, one by the owner, one
    by account 0 and one by the ignored account. *)

Module Recorded.

(** ['%f'] for an exact rational: six decimals, ties to even. *)
Definition format_fixed6 (q : Q) : string :=
  let n := Z.abs (Qnum q) * 1000000 in
  let d := Zpos (Qden q) in
  let lo := n / d in
  let twice := 2 * (n mod d) in
  let scaled :=
    if (d <? twice) || ((twice =? d) && Z.odd lo) then lo + 1 else lo in
  let frac := str_of_int (scaled mod 1000000) in
  let zeros := drop (String.length frac) "000000" in
  let sign := if Qnum q <? 0 then "-" else EmptyString in
  (sign ++ str_of_int (scaled / 1000000) ++ "." ++ zeros ++ frac)%string.

(** No colour: the text as it is. *)
Definition plain (text colour : string) : string := text.

Definition newline : string := String (ascii_of_nat 10) EmptyString.

(** A response body: the prefix Gerrit sends, then the JSON text. *)
Definition body (text : string) : string :=
  (")]}'" ++ newline ++ JsonReader.quoted text)%string.

Definition pages : list (string * string) :=
  [ ("https://review.openstack.org/changes/?q=status:merged+before:2019-04-10+after:2018-08-30+project:openstack/keystone",
     body "[{'_number': 101, 'owner': {'_account_id': 1}, 'insertions': 10, 'deletions': 2},
            {'_number': 102, 'owner': {'_account_id': 2}, 'insertions': 5, 'deletions': 1},
            {'_number': 103, 'owner': {'_account_id': 9}, 'insertions': 7, 'deletions': 7}]");
    ("https://review.openstack.org/changes/?q=status:merged+project:openstack/keystone+branch:stable/stein",
     body "[{'_number': 102, 'owner': {'_account_id': 2}, 'insertions': 5, 'deletions': 1}]");
    ("https://review.openstack.org/changes/101/detail",
     body "{'messages': [{'author': {'_account_id': 2}, 'message': 'Looks good'},
                         {'message': 'Change has been merged'},
                         {'author': {'_account_id': 1}, 'message': 'Thanks'},
                         {'author': {'_account_id': 0}, 'message': 'Build succeeded'},
                         {'author': {'_account_id': 3}, 'message': 'Approved'},
                         {'author': {'_account_id': 9}, 'message': 'recheck'}]}");
    ("https://review.openstack.org/changes/102/detail",
     body "{'messages': [{'author': {'_account_id': 1}, 'message': 'One nit'},
                         {'author': {'_account_id': 3}, 'message': 'Approved'}]}");
    ("https://review.openstack.org/changes/103/detail",
     body "{'messages': [{'author': {'_account_id': 2}, 'message': 'Fine'}]}");
    ("https://review.openstack.org/accounts/1", body "{'name': 'Lovelace, Ada'}");
    ("https://review.openstack.org/accounts/2", body "{'name': 'Bob'}");
    ("https://review.openstack.org/accounts/3", body "{'name': 'Cy'}") ].

Definition web (url : string) : option string := Dict.get String.eqb url pages.

Definition keystone : Repository :=
  mkRepository "openstack/keystone" "2019-04-10" "2018-08-30" true.

Definition config : Config := mkConfig "stein" [9] [keystone].

(** What the script is expected to leave and to print. *)
Definition aggregated : State :=
  mkState 3 0 27 11 27 11
    [ (1, mkContributor 1 (JStr "Lovelace, Ada") 2 1);
      (2, mkContributor 2 (JStr "Bob") 2 2);
      (3, mkContributor 3 (JStr "Cy") 3 0) ]
    [1; 2; 3].

Definition collected : State :=
  mkState 3 7 27 11 27 11 (contributors aggregated) [1; 2; 3].

Definition reviews_report : list string :=
  [ "1,Cy,3,0.428571,0.428571";
    "2,Lovelace  Ada,2,0.285714,0.714286";
    "3,Bob,2,0.285714,1.000000" ].

Definition commits_report : list string :=
  [ "1,Bob,2,0.666667,0.666667";
    "2,Lovelace  Ada,1,0.333333,1.000000" ].

(** The third change, and the state before and after it is processed. *)
Definition change_103 : json :=
  JDict [ ("_number", JInt 103); ("owner", JDict [("_account_id", JInt 9)]);
          ("insertions", JInt 7); ("deletions", JInt 7) ].

Definition before_103 : State :=
  mkState 2 0 0 0 15 3
    [ (1, mkContributor 1 (JStr "Lovelace, Ada") 1 1);
      (2, mkContributor 2 (JStr "Bob") 1 1);
      (3, mkContributor 3 (JStr "Cy") 2 0) ]
    [1; 2; 3].

Definition after_103 : State :=
  mkState 2 0 0 0 22 10
    [ (1, mkContributor 1 (JStr "Lovelace, Ada") 1 1);
      (2, mkContributor 2 (JStr "Bob") 2 1);
      (3, mkContributor 3 (JStr "Cy") 2 0) ]
    [1; 2; 3].

(** Two messages of the thread of change 101. *)
Definition message_of_zero : json :=
  JDict [ ("author", JDict [("_account_id", JInt 0)]);
          ("message", JStr "Build succeeded") ].

Definition message_without_author : json :=
  JDict [ ("message", JStr "Change has been merged") ].

Definition no_line : Line := mkLine 0 EmptyString 0 0 0.

Definition reviews_mode : Args := mkArgs true false false.
Definition commits_mode : Args := mkArgs false true false.
Definition summary_mode : Args := mkArgs false false true.

(** An arithmetic that rounds to six decimals, to the nearest. *)
Definition round6 (q : Q) : Q :=
  (inject_Z (Qfloor (q * 1000000 + (1 # 2))) / 1000000)%Q.

Definition fixed6 : Arith :=
  mkArith Q inject_Z (fun x y => round6 (x / y)) (fun x y => round6 (x + y))
          0%Q (fun q => q).

(** The lines of reviews mode in that arithmetic: the last running
    percentage falls short of 1. *)
Definition rounded_reviews : list (RoundedLine Q) :=
  [ mkRoundedLine 1 "Cy" 3 (428571 # 1000000)%Q (428571 # 1000000)%Q;
    mkRoundedLine 2 "Lovelace  Ada" 2 (285714 # 1000000)%Q (714285 # 1000000)%Q;
    mkRoundedLine 3 "Bob" 2 (285714 # 1000000)%Q (999999 # 1000000)%Q ].

Definition no_rounded_line : RoundedLine Q :=
  mkRoundedLine 0 EmptyString 0 0%Q 0%Q.

(** The four lines of summary mode. *)
Definition summary_lines : list string :=
  [ "+27 -11"; "3 patches merged"; "7 patches reviewed"; "3 total contributors" ].

(** A repository the recorded Gerrit does not answer for. *)
Definition nova : Repository :=
  mkRepository "openstack/nova" "2019-04-10" "2018-08-30" false.

Definition config_with_nova : Config := mkConfig "stein" [9] [keystone; nova].

(** A second repository, and the two orders of the input. *)
Definition more_pages : list (string * string) :=
  pages ++
  [ ("https://review.openstack.org/changes/?q=status:merged+before:2019-04-10+after:2018-08-30+project:openstack/oslo.config",
     body "[{'_number': 201, 'owner': {'_account_id': 3}, 'insertions': 4, 'deletions': 0}]");
    ("https://review.openstack.org/changes/201/detail",
     body "{'messages': [{'author': {'_account_id': 2}, 'message': 'Nice'}]}") ].

Definition wider_web (url : string) : option string :=
  Dict.get String.eqb url more_pages.

Definition oslo : Repository :=
  mkRepository "openstack/oslo.config" "2019-04-10" "2018-08-30" false.

Definition keystone_first : Config := mkConfig "stein" [9] [keystone; oslo].
Definition oslo_first : Config := mkConfig "stein" [9] [oslo; keystone].

Definition after_keystone_first : State :=
  mkState 4 0 31 11 4 0
    [ (1, mkContributor 1 (JStr "Lovelace, Ada") 2 1);
      (2, mkContributor 2 (JStr "Bob") 3 2);
      (3, mkContributor 3 (JStr "Cy") 3 1) ]
    [1; 2; 3].

Definition after_oslo_first : State :=
  mkState 4 0 31 11 27 11
    [ (3, mkContributor 3 (JStr "Cy") 3 1);
      (2, mkContributor 2 (JStr "Bob") 3 2);
      (1, mkContributor 1 (JStr "Lovelace, Ada") 2 1) ]
    [3; 2; 1].

(** A repository with a change that has no ['deletions']. *)
Definition broken_pages : list (string * string) :=
  pages ++
  [ ("https://review.openstack.org/changes/?q=status:merged+before:2019-04-10+after:2018-08-30+project:openstack/glance",
     body "[{'_number': 301, 'owner': {'_account_id': 1}, 'insertions': 3}]") ].

Definition broken_web (url : string) : option string :=
  Dict.get String.eqb url broken_pages.

Definition glance : Repository :=
  mkRepository "openstack/glance" "2019-04-10" "2018-08-30" false.

Definition config_with_glance : Config := mkConfig "stein" [9] [keystone; glance].

Definition change_301 : json :=
  JDict [ ("_number", JInt 301); ("owner", JDict [("_account_id", JInt 1)]);
          ("insertions", JInt 3) ].

End Recorded.

Section Script.

(** [requests.get(url).text], seen through the cache; [None] when the request
    raises. *)
Variable requests_get : string -> option string.
(** [json.loads] *)
Variable json_loads : string -> option json.
(** ['%f' % x] *)
Variable format_f : Q -> string.
(** [termcolor.colored] *)
Variable colored : string -> string -> string.

Definition response_body_to_json (text : string) : option json :=
  json_loads (drop 4 text).

Definition get (url : string) : option string := requests_get url.

Definition get_merged_reviews_for_repository
    (repo : Repository) (release_name : string) : option (list json) :=
  let reviews := [] in
  let url := (GERRIT ++ "/changes/?q=status:merged+before:" ++ release_date repo
              ++ "+after:" ++ start_date repo ++ "+project:" ++ repo_name repo
             )%string in
  r <- get url ;;
  body <- response_body_to_json r ;;
  found <- iterate body ;;
  let reviews := reviews ++ found in
  if stable_branch repo then
    let url := (GERRIT ++ "/changes/?q=status:merged+project:" ++ repo_name repo
                ++ "+branch:stable/" ++ release_name)%string in
    r <- get url ;;
    body <- response_body_to_json r ;;
    found <- iterate body ;;
    Some (reviews ++ found)
  else Some reviews.

Definition get_user_by_account_id (account_id : Z) : option json :=
  resp <- requests_get ("https://review.openstack.org/accounts/"
                        ++ str_of_int account_id)%string ;;
  response_body_to_json resp.

Definition get_review_details (number : Z) : option json :=
  resp <- requests_get
            (GERRIT ++ "/changes/" ++ str_of_int number ++ "/detail")%string ;;
  response_body_to_json resp.

Section Aggregation.
Variable IGNORED_USERS : list Z.
Variable RELEASE_NAME : string.

(** [c = contributors[user_id]; c.commits += 1; total_commits += 1] *)
Definition count_commit (user_id : Z) (st : State) : State :=
  with_total_commits (total_commits st + 1)
    (with_contributors
       (Dict.adjust Z.eqb incr_commits user_id (contributors st)) st).

(** [c = contributors[author_id]; c.review_count += 1] *)
Definition count_review (author_id : Z) (st : State) : State :=
  with_contributors
    (Dict.adjust Z.eqb incr_review_count author_id (contributors st)) st.

(** Lines 124-133. *)
Definition count_owner (st : State) (user_id : Z) : option State :=
  if negb (Dict.mem Z.eqb user_id (contributors st))
     && negb (in_list user_id IGNORED_USERS) then
    user <- get_user_by_account_id user_id ;;
    user_name <- getitem user "name" ;;
    Some (count_commit user_id (construct user_id user_name st))
  else if Dict.mem Z.eqb user_id (contributors st) then
    Some (count_commit user_id st)
  else Some st.

(** Lines 139-141: [None] when the message has no ['author']. *)
Definition message_author (message : json) : option (option Z) :=
  has_author <- contains message "author" ;;
  if has_author then
    author <- getitem message "author" ;;
    id <- getitem author "_account_id" ;;
    author_id <- as_int id ;;
    Some (Some author_id)
  else Some None.

(** Lines 142-151, for an author id that is not [None]. *)
Definition count_author (patch_owner : Z) (st : State) (author_id : Z)
  : option State :=
  if negb (author_id =? 0) && negb (author_id =? patch_owner) then
    if negb (Dict.mem Z.eqb author_id (contributors st))
       && negb (in_list author_id IGNORED_USERS) then
      user <- get_user_by_account_id author_id ;;
      user_name <- getitem user "name" ;;
      Some (count_review author_id (construct author_id user_name st))
    else if Dict.mem Z.eqb author_id (contributors st) then
      Some (count_review author_id st)
    else Some st
  else Some st.

(** The body of [for message in details['messages']]. *)
Definition process_message (patch_owner : Z) (st : State) (message : json)
  : option State :=
  author_id <- message_author message ;;
  match author_id with
  | Some author_id => count_author patch_owner st author_id
  | None => Some st
  end.

Definition int_field (obj : json) (key : string) : option Z :=
  v <- getitem obj key ;; as_int v.

Definition owner_account_id (review : json) : option Z :=
  owner <- getitem review "owner" ;; int_field owner "_account_id".

(** The body of [for review in reviews], lines 121-151. *)
Definition process_review (st : State) (review : json) : option State :=
  insertions <- int_field review "insertions" ;;
  deletions <- int_field review "deletions" ;;
  let st := with_project (project_additions st + insertions)
                         (project_deletions st + deletions) st in
  user_id <- owner_account_id review ;;
  st <- count_owner st user_id ;;
  review_number <- int_field review "_number" ;;
  patch_owner <- owner_account_id review ;;
  details <- get_review_details review_number ;;
  messages_field <- getitem details "messages" ;;
  messages <- as_list messages_field ;;
  for_each (process_message patch_owner) messages st.

(** The body of [for repository in repositories.get('repositories')]. *)
Definition process_repository (st : State) (repository : Repository)
  : option State :=
  let st := with_project 0 0 st in
  reviews <- get_merged_reviews_for_repository repository RELEASE_NAME ;;
  st <- for_each process_review reviews st ;;
  Some (with_totals (total_additions st + project_additions st)
                    (total_deletions st + project_deletions st) st).

End Aggregation.

(** Lines 111-154. *)
Definition aggregate (config : Config) : option State :=
  for_each (process_repository (ignored_users config) (release_name config))
           (repositories config) initial_state.

(** Lines 157-161: [total_reviews] and the list [cl]. *)
Definition collect_step (acc : State * list Contributor) (item : Z * Contributor)
  : State * list Contributor :=
  let (st, cl) := acc in
  let v := snd item in
  let st := with_total_reviews (total_reviews st + review_count v) st in
  if reportable v then (st, cl ++ [v]) else (st, cl).

Definition collect (st : State) : State * list Contributor :=
  fold_left collect_step (contributors st) (st, []).

(** The loop of lines 166-177 and of lines 181-192, which differ in the
    counter only: [i] is the rank [enumerate] hands out next, [running] the
    running percentage.  A division by [total = 0] raises. *)
Fixpoint leaderboard (key : Contributor -> Z) (total : Z) (i : Z) (running : Q)
    (sorted_list : list Contributor) : option (list Line) :=
  match sorted_list with
  | [] => Some []
  | c :: rest =>
      if key c =? 0 then leaderboard key total (i + 1) running rest
      else if total =? 0 then None
      else
        let percentage := (inject_Z (key c) / inject_Z total)%Q in
        let running := (running + percentage)%Q in
        name_str <- as_str (name c) ;;
        let name := replace_char "," " " name_str in
        lines <- leaderboard key total (i + 1) running rest ;;
        Some (mkLine i name (key c) percentage running :: lines)
  end.

(** ['%d,%s,%d,%f,%f' % (...)] *)
Definition format_line (l : Line) : string :=
  (str_of_int (rank l) ++ "," ++ line_name l ++ "," ++ str_of_int (line_count l)
   ++ "," ++ format_f (percentage l) ++ "," ++ format_f (running_percentage l)
  )%string.

(** Lines 163-199: the lines printed for the collected state. *)
Definition report (args : Args) (st : State) (cl : list Contributor)
  : option (list string) :=
  if collect_reviews args then
    let sorted_list := sorted_reverse review_count cl in
    lines <- leaderboard review_count (total_reviews st) 1 0 sorted_list ;;
    Some (map format_line lines)
  else if collect_commits args then
    let sorted_list := sorted_reverse commits cl in
    lines <- leaderboard commits (total_commits st) 1 0 sorted_list ;;
    Some (map format_line lines)
  else if summary args then
    let additions :=
      colored ("+" ++ str_of_int (total_additions st))%string "green" in
    let deletions :=
      colored ("-" ++ str_of_int (total_deletions st))%string "red" in
    Some [ (additions ++ " " ++ deletions)%string;
           (str_of_int (total_commits st) ++ " patches merged")%string;
           (str_of_int (total_reviews st) ++ " patches reviewed")%string;
           (str_of_int (Z.of_nat (List.length cl)) ++ " total contributors"
           )%string ]
  else Some [].

(** The whole script. *)
Definition main (args : Args) (config : Config) : option (list string) :=
  st <- aggregate config ;;
  let (st, cl) := collect st in
  report args st cl.

(** ** What a run reads, and the events it counts *)

(** The changes fetched for one repository, and for the whole input, in the
    order the script walks them; a change listed twice stands twice. *)
Definition reviews_of_repository (RELEASE_NAME : string) (repo : Repository)
  : list json :=
  match get_merged_reviews_for_repository repo RELEASE_NAME with
  | Some reviews => reviews
  | None => []
  end.

Definition processed_reviews (config : Config) : list json :=
  flat_map (reviews_of_repository (release_name config)) (repositories config).

(** The message thread of a change. *)
Definition review_messages (review : json) : list json :=
  match
    (review_number <- int_field review "_number" ;;
     details <- get_review_details review_number ;;
     messages_field <- getitem details "messages" ;;
     as_list messages_field)
  with
  | Some messages => messages
  | None => []
  end.

Definition insertions_of (review : json) : Z :=
  match int_field review "insertions" with Some n => n | None => 0 end.

Definition deletions_of (review : json) : Z :=
  match int_field review "deletions" with Some n => n | None => 0 end.

Definition owned_by (id : Z) (review : json) : bool :=
  match owner_account_id review with
  | Some owner => owner =? id
  | None => false
  end.

(** A change whose owner is not ignored: one commit event. *)
Definition commit_event (ignored : list Z) (review : json) : bool :=
  match owner_account_id review with
  | Some owner => negb (in_list owner ignored)
  | None => false
  end.

(** A message that credits [id] with a review on a change owned by
    [patch_owner]: its author is [id], a non-zero id that is neither the
    owner of the change nor ignored. *)
Definition credits (ignored : list Z) (patch_owner id : Z) (message : json) : bool :=
  match message_author message with
  | Some (Some author_id) =>
      (author_id =? id) && negb (author_id =? 0)
      && negb (author_id =? patch_owner) && negb (in_list author_id ignored)
  | _ => false
  end.

Definition review_events (ignored : list Z) (id : Z) (review : json) : Z :=
  match owner_account_id review with
  | Some patch_owner =>
      count_if (credits ignored patch_owner id) (review_messages review)
  | None => 0
  end.

(** The invariant of the aggregation loops. *)
Record consistent (ignored : list Z) (st : State) : Prop := mkConsistent {
  keys_constructed : Dict.keys (contributors st) = constructed st;
  constructed_once : NoDup (constructed st);
  constructed_not_ignored : keys_not_ignored ignored st = true;
  keyed_by_account :
    Forall (fun kc => account_id (snd kc) = fst kc) (contributors st);
  counters_nonneg :
    Forall (fun kc => 0 <= review_count (snd kc) /\ 0 <= commits (snd kc))
           (contributors st);
  commits_add_up :
    sum_of (fun kc => commits (snd kc)) (contributors st) = total_commits st
}.

(** The invariant as a test on a given state. *)
Fixpoint distinct (l : list Z) : bool :=
  match l with
  | [] => true
  | x :: rest => negb (in_list x rest) && distinct rest
  end.

Fixpoint same_ids (l1 l2 : list Z) : bool :=
  match l1, l2 with
  | [], [] => true
  | x :: r1, y :: r2 => (x =? y) && same_ids r1 r2
  | _, _ => false
  end.

Definition well_formed (ignored : list Z) (st : State) : bool :=
  same_ids (Dict.keys (contributors st)) (constructed st)
  && distinct (constructed st)
  && keys_not_ignored ignored st
  && forallb (fun kc => account_id (snd kc) =? fst kc) (contributors st)
  && forallb (fun kc => (0 <=? review_count (snd kc)) && (0 <=? commits (snd kc)))
             (contributors st)
  && (sum_of (fun kc => commits (snd kc)) (contributors st) =? total_commits st).

(** The two queries of [get_merged_reviews_for_repository], and the changes
    each of them lists. *)
Definition query (url : string) : option (list json) :=
  r <- get url ;;
  body <- response_body_to_json r ;;
  iterate body.

Definition default_branch_url (repo : Repository) : string :=
  (GERRIT ++ "/changes/?q=status:merged+before:" ++ release_date repo
   ++ "+after:" ++ start_date repo ++ "+project:" ++ repo_name repo)%string.

Definition stable_branch_url (RELEASE_NAME : string) (repo : Repository) : string :=
  (GERRIT ++ "/changes/?q=status:merged+project:" ++ repo_name repo
   ++ "+branch:stable/" ++ RELEASE_NAME)%string.

Definition default_branch_changes (repo : Repository) : list json :=
  match query (default_branch_url repo) with
  | Some found => found
  | None => []
  end.

Definition stable_branch_changes (RELEASE_NAME : string) (repo : Repository)
  : list json :=
  if stable_branch repo then
    match query (stable_branch_url RELEASE_NAME repo) with
    | Some found => found
    | None => []
    end
  else [].

(** What one step of the per-change accounting does to the counters: the
    invariant is kept, [total_commits] grows by [dtotal], the counters of every
    account [id] by [dc id] and [dr id], and nothing else moves. *)
Definition accounted (ignored : list Z) (st st' : State)
    (dtotal : Z) (dc dr : Z -> Z) : Prop :=
  consistent ignored st' /\
  total_commits st' = total_commits st + dtotal /\
  (forall id, commits_of st' id = commits_of st id + dc id) /\
  (forall id, reviews_of st' id = reviews_of st id + dr id) /\
  total_reviews st' = total_reviews st /\
  total_additions st' = total_additions st /\
  total_deletions st' = total_deletions st /\
  project_additions st' = project_additions st /\
  project_deletions st' = project_deletions st.

(** What processing the changes [reviews] does to the counters; [adds] and
    [dels] are the line counters looked at, those of the project or those of
    the run. *)
Definition tallied (adds dels : State -> Z) (ignored : list Z)
    (reviews : list json) (st st' : State) : Prop :=
  consistent ignored st' /\
  total_commits st' = total_commits st + count_if (commit_event ignored) reviews /\
  (forall id, commits_of st' id = commits_of st id
     + count_if (fun r => owned_by id r && commit_event ignored r) reviews) /\
  (forall id, reviews_of st' id = reviews_of st id
     + sum_of (review_events ignored id) reviews) /\
  total_reviews st' = total_reviews st /\
  adds st' = adds st + sum_of insertions_of reviews /\
  dels st' = dels st + sum_of deletions_of reviews.

(** ** More of what a run shows *)

Definition is_some {A : Type} (o : option A) : bool :=
  match o with
  | Some _ => true
  | None => false
  end.

(** A message that credits its author with a review on a change owned by
    [patch_owner]: the author has a non-zero id, is not the owner and is not
    ignored. *)
Definition crediting (ignored : list Z) (patch_owner : Z) (message : json) : bool :=
  match message_author message with
  | Some (Some author_id) =>
      negb (author_id =? 0) && negb (author_id =? patch_owner)
      && negb (in_list author_id ignored)
  | _ => false
  end.

Definition crediting_messages (ignored : list Z) (review : json) : Z :=
  match owner_account_id review with
  | Some patch_owner =>
      count_if (crediting ignored patch_owner) (review_messages review)
  | None => 0
  end.

(** The thread of a change, when it can be fetched and read. *)
Definition thread (review : json) : option (list json) :=
  review_number <- int_field review "_number" ;;
  details <- get_review_details review_number ;;
  messages_field <- getitem details "messages" ;;
  as_list messages_field.

(** A change and its detail hold the keys the loop subscripts: a missing key
    raises [KeyError], a value that cannot be subscripted [TypeError]. *)
Definition keys_present (review : json) : bool :=
  is_some (getitem review "insertions")
  && is_some (getitem review "deletions")
  && is_some (owner <- getitem review "owner" ;; getitem owner "_account_id")
  && is_some (getitem review "_number")
  && match (review_number <- int_field review "_number" ;;
            get_review_details review_number) with
     | Some details => is_some (getitem details "messages")
     | None => true
     end.

(** The counter and the total of the mode chosen, and the lines of the
    description for them. *)
Definition mode_key (args : Args) : Contributor -> Z :=
  if collect_reviews args then review_count else commits.

Definition mode_total (args : Args) (st : State) : Z :=
  if collect_reviews args then total_reviews st else total_commits st.

Definition printed_lines (args : Args) (st : State) (cl : list Contributor)
  : list Line :=
  described_lines (replace_char "," " ") (mode_key args) (mode_total args st) []
                  (sorted_reverse (mode_key args) cl).

(** The name of a contributor is the ['name'] of the account record. *)
Definition named_after_account (kc : Z * Contributor) : Prop :=
  exists user,
    get_user_by_account_id (fst kc) = Some user /\
    getitem user "name" = Some (name (snd kc)).

(** The sum of the [review_count] of the contributor map. *)
Definition sum_review_count (st : State) : Z :=
  sum_of (fun kc => review_count (snd kc)) (contributors st).

(** The requests of one repository fail or answer something that is no
    list of changes. *)
Definition query_fails (url : string) : bool := negb (is_some (query url)).

(** The number of occurrences of a character in a text. *)
Fixpoint count_char (c : ascii) (s : string) : Z :=
  match s with
  | EmptyString => 0
  | String a rest => Z.b2z (Ascii.eqb a c) + count_char c rest
  end.

(** * Properties *)

(** ** Inverting a successful step *)

Lemma bind_Some {A B : Type} (m : option A) (k : A -> option B) (b : B) :
  bind m k = Some b -> exists a, m = Some a /\ k a = Some b.
Proof.
  destruct m as [a|]; simpl; intros H; [exists a; auto | discriminate].
Qed.

Ltac unbind H :=
  let x := fresh "x" in
  let E := fresh "E" in
  apply bind_Some in H; destruct H as (x & E & H).

(** ** Counting lemmas *)

Lemma count_if_cons {A : Type} (p : A -> bool) (x : A) (l : list A) :
  count_if p (x :: l) = Z.b2z (p x) + count_if p l.
Proof.
  unfold count_if; cbn [filter]; destruct (p x); cbn [List.length Z.b2z];
    [rewrite Nat2Z.inj_succ|]; lia.
Qed.

Lemma count_if_app {A : Type} (p : A -> bool) (l1 l2 : list A) :
  count_if p (l1 ++ l2) = count_if p l1 + count_if p l2.
Proof.
  unfold count_if; rewrite filter_app, length_app; lia.
Qed.

Lemma count_if_nonneg {A : Type} (p : A -> bool) (l : list A) : 0 <= count_if p l.
Proof. unfold count_if; lia. Qed.

Lemma sum_of_app {A : Type} (w : A -> Z) (l1 l2 : list A) :
  sum_of w (l1 ++ l2) = sum_of w l1 + sum_of w l2.
Proof.
  induction l1 as [|x l1 IH]; simpl; [reflexivity | rewrite IH; lia].
Qed.

Lemma count_if_flat_map {A B : Type} (p : B -> bool) (f : A -> list B) (l : list A) :
  count_if p (flat_map f l) = sum_of (fun x => count_if p (f x)) l.
Proof.
  induction l as [|x l IH]; simpl; [reflexivity|].
  rewrite count_if_app, IH; reflexivity.
Qed.

Lemma sum_of_flat_map {A B : Type} (w : B -> Z) (f : A -> list B) (l : list A) :
  sum_of w (flat_map f l) = sum_of (fun x => sum_of w (f x)) l.
Proof.
  induction l as [|x l IH]; simpl; [reflexivity|].
  rewrite sum_of_app, IH; reflexivity.
Qed.

(** ** The contributor map *)

Section DictFacts.
Context {V : Type}.
Implicit Types (d : list (Z * V)) (k : Z).

Lemma mem_In k d : Dict.mem Z.eqb k d = true <-> In k (Dict.keys d).
Proof.
  induction d as [|[k' v] d IH]; simpl; [split; [discriminate | tauto]|].
  destruct (Z.eqb_spec k k') as [->|Hne]; [tauto|].
  rewrite IH; split; [auto | intros [H|H]; [congruence | exact H]].
Qed.

Lemma mem_false_get k d : Dict.mem Z.eqb k d = false -> Dict.get Z.eqb k d = None.
Proof.
  induction d as [|[k' v] d IH]; simpl; [reflexivity|].
  destruct (k =? k'); [discriminate | exact IH].
Qed.

Lemma mem_true_get k d :
  Dict.mem Z.eqb k d = true -> exists v, Dict.get Z.eqb k d = Some v.
Proof.
  induction d as [|[k' v] d IH]; simpl; [discriminate|].
  destruct (k =? k'); [exists v; reflexivity | exact IH].
Qed.

Lemma keys_set_new k (v : V) d :
  Dict.mem Z.eqb k d = false -> Dict.keys (Dict.set Z.eqb k v d) = Dict.keys d ++ [k].
Proof.
  induction d as [|[k' v'] d IH]; simpl; [reflexivity|].
  destruct (k =? k'); [discriminate|]; intros H; simpl; rewrite (IH H); reflexivity.
Qed.

Lemma set_new k (v : V) d :
  Dict.mem Z.eqb k d = false -> Dict.set Z.eqb k v d = d ++ [(k, v)].
Proof.
  induction d as [|[k' v'] d IH]; simpl; [reflexivity|].
  destruct (k =? k'); [discriminate|]; intros H; rewrite (IH H); reflexivity.
Qed.

Lemma keys_adjust (f : V -> V) k d :
  Dict.keys (Dict.adjust Z.eqb f k d) = Dict.keys d.
Proof.
  induction d as [|[k' v'] d IH]; simpl; [reflexivity|].
  destruct (k =? k'); simpl; [reflexivity | rewrite IH; reflexivity].
Qed.

Lemma get_app_new k' k (v : V) d :
  Dict.mem Z.eqb k d = false ->
  Dict.get Z.eqb k' (d ++ [(k, v)]) =
  if k' =? k then Some v else Dict.get Z.eqb k' d.
Proof.
  induction d as [|[k0 v0] d IH]; simpl; [destruct (k' =? k); reflexivity|].
  destruct (Z.eqb_spec k k0) as [->|Hk]; [discriminate|]; intros H.
  destruct (Z.eqb_spec k' k0) as [->|Hk'].
  - destruct (Z.eqb_spec k0 k); [congruence | reflexivity].
  - exact (IH H).
Qed.

Lemma get_adjust (f : V -> V) k' k d :
  Dict.get Z.eqb k' (Dict.adjust Z.eqb f k d) =
  if k' =? k then option_map f (Dict.get Z.eqb k d) else Dict.get Z.eqb k' d.
Proof.
  induction d as [|[k0 v0] d IH]; simpl; [destruct (k' =? k); reflexivity|].
  destruct (Z.eqb_spec k k0) as [->|Hk]; simpl.
  - destruct (Z.eqb_spec k' k0) as [->|Hk']; reflexivity.
  - destruct (Z.eqb_spec k' k0) as [->|Hk'].
    + destruct (Z.eqb_spec k0 k); [congruence | reflexivity].
    + exact IH.
Qed.

Lemma Forall_adjust (P : Z * V -> Prop) (f : V -> V) k d :
  (forall k0 v, P (k0, v) -> P (k0, f v)) ->
  Forall P d -> Forall P (Dict.adjust Z.eqb f k d).
Proof.
  intros Hf; induction 1 as [|[k0 v0] d Hx Hd IH]; simpl; [constructor|].
  destruct (k =? k0); constructor; auto.
Qed.

Lemma sum_of_adjust (w : V -> Z) (f : V -> V) k d :
  (forall v, w (f v) = w v + 1) ->
  sum_of (fun kv => w (snd kv)) (Dict.adjust Z.eqb f k d) =
  sum_of (fun kv => w (snd kv)) d + Z.b2z (Dict.mem Z.eqb k d).
Proof.
  intros Hf; induction d as [|[k0 v0] d IH]; simpl; [reflexivity|].
  destruct (k =? k0); simpl; [rewrite Hf | rewrite IH]; lia.
Qed.

Lemma sum_of_adjust_same (w : V -> Z) (f : V -> V) k d :
  (forall v, w (f v) = w v) ->
  sum_of (fun kv => w (snd kv)) (Dict.adjust Z.eqb f k d) =
  sum_of (fun kv => w (snd kv)) d.
Proof.
  intros Hf; induction d as [|[k0 v0] d IH]; simpl; [reflexivity|].
  destruct (k =? k0); simpl; [rewrite Hf | rewrite IH]; lia.
Qed.

End DictFacts.

(** ** One step of the accounting *)

Lemma accounted_refl ign st :
  consistent ign st -> accounted ign st st 0 (fun _ => 0) (fun _ => 0).
Proof.
  intros H; unfold accounted; split; [exact H|].
  repeat split; intros; lia.
Qed.

Lemma accounted_trans ign st1 st2 st3 t1 t2 dc1 dc2 dr1 dr2 :
  accounted ign st1 st2 t1 dc1 dr1 ->
  accounted ign st2 st3 t2 dc2 dr2 ->
  accounted ign st1 st3 (t1 + t2)
            (fun id => dc1 id + dc2 id) (fun id => dr1 id + dr2 id).
Proof.
  intros (_ & Ht1 & Hc1 & Hr1 & A1 & B1 & C1 & D1 & E1)
         (Hw & Ht2 & Hc2 & Hr2 & A2 & B2 & C2 & D2 & E2).
  unfold accounted; split; [exact Hw|].
  repeat split; try congruence; try lia.
  - intros id; rewrite Hc2, Hc1; lia.
  - intros id; rewrite Hr2, Hr1; lia.
Qed.

Lemma accounted_ext ign st st' t t' dc dc' dr dr' :
  accounted ign st st' t dc dr ->
  t = t' -> (forall id, dc id = dc' id) -> (forall id, dr id = dr' id) ->
  accounted ign st st' t' dc' dr'.
Proof.
  intros (Hw & Ht & Hc & Hr & Rest) -> Hdc Hdr.
  unfold accounted; split; [exact Hw|].
  repeat split; try tauto.
  - intros id; rewrite <- Hdc; apply Hc.
  - intros id; rewrite <- Hdr; apply Hr.
Qed.

Lemma keys_not_ignored_In ign st k :
  keys_not_ignored ign st = true ->
  Dict.mem Z.eqb k (contributors st) = true -> in_list k ign = false.
Proof.
  unfold keys_not_ignored; rewrite forallb_forall, mem_In.
  intros H Hin; apply H in Hin; destruct (in_list k ign); [discriminate | reflexivity].
Qed.

Ltac state_fields :=
  unfold construct, count_commit, count_review, with_contributors,
    with_total_commits, with_total_reviews, with_totals, with_project in *;
  cbn [contributors constructed total_commits total_reviews total_additions
       total_deletions project_additions project_deletions] in *.

(** [Contributor(...)] for an account that has none and is not ignored. *)
Lemma construct_accounted ign st id nm :
  consistent ign st ->
  Dict.mem Z.eqb id (contributors st) = false ->
  in_list id ign = false ->
  accounted ign st (construct id nm st) 0 (fun _ => 0) (fun _ => 0).
Proof.
  intros [Hk Hn Hi Ha Hp Hs] Hmem Hign.
  assert (Hset := set_new id (new_Contributor id nm) (contributors st) Hmem).
  unfold accounted, commits_of, reviews_of, keys_not_ignored in *.
  repeat split; state_fields; rewrite ?Hset; try lia.
  - unfold Dict.keys in *; rewrite map_app; cbn [map fst]; congruence.
  - apply NoDup_app; auto.
    + constructor; [intros [] | constructor].
    + intros a Ha' [<-|[]]. rewrite <- Hk in Ha'.
      apply mem_In in Ha'; congruence.
  - unfold keys_not_ignored, Dict.keys; state_fields; rewrite map_app, forallb_app.
    fold (Dict.keys (contributors st)).
    rewrite Hi; cbn; rewrite Hign; reflexivity.
  - apply Forall_app; split; auto.
  - apply Forall_app; split; auto.
    constructor; [cbn; lia | constructor].
  - rewrite sum_of_app; cbn; lia.
  - intros k; rewrite get_app_new by exact Hmem.
    destruct (Z.eqb_spec k id) as [->|]; [|lia].
    rewrite (mem_false_get _ _ Hmem); cbn; lia.
  - intros k; rewrite get_app_new by exact Hmem.
    destruct (Z.eqb_spec k id) as [->|]; [|lia].
    rewrite (mem_false_get _ _ Hmem); cbn; lia.
Qed.

(** [c.commits += 1; total_commits += 1] on a recorded contributor. *)
Lemma count_commit_accounted ign st id :
  consistent ign st ->
  Dict.mem Z.eqb id (contributors st) = true ->
  accounted ign st (count_commit id st) 1
            (fun k => Z.b2z (id =? k)) (fun _ => 0).
Proof.
  intros [Hk Hn Hi Ha Hp Hs] Hmem.
  unfold accounted, commits_of, reviews_of, keys_not_ignored in *.
  repeat split; state_fields; try lia.
  - rewrite keys_adjust; exact Hk.
  - exact Hn.
  - unfold keys_not_ignored; state_fields; rewrite keys_adjust; exact Hi.
  - apply Forall_adjust; auto.
  - apply Forall_adjust; auto. intros k0 v; cbn; lia.
  - rewrite (sum_of_adjust commits) by reflexivity. rewrite Hmem; cbn; lia.
  - intros k; rewrite get_adjust, (Z.eqb_sym id k).
    destruct (Z.eqb_spec k id) as [->|]; [|cbn; lia].
    destruct (mem_true_get _ _ Hmem) as [v ->]; cbn; lia.
  - intros k; rewrite get_adjust.
    destruct (Z.eqb_spec k id) as [->|]; [|lia].
    destruct (mem_true_get _ _ Hmem) as [v ->]; cbn; lia.
Qed.

(** [c.review_count += 1] on a recorded contributor. *)
Lemma count_review_accounted ign st id :
  consistent ign st ->
  Dict.mem Z.eqb id (contributors st) = true ->
  accounted ign st (count_review id st) 0
            (fun _ => 0) (fun k => Z.b2z (id =? k)).
Proof.
  intros [Hk Hn Hi Ha Hp Hs] Hmem.
  unfold accounted, commits_of, reviews_of, keys_not_ignored in *.
  repeat split; state_fields; try lia.
  - rewrite keys_adjust; exact Hk.
  - exact Hn.
  - unfold keys_not_ignored; state_fields; rewrite keys_adjust; exact Hi.
  - apply Forall_adjust; auto.
  - apply Forall_adjust; auto. intros k0 v; cbn; lia.
  - rewrite (sum_of_adjust_same commits) by reflexivity. exact Hs.
  - intros k; rewrite get_adjust.
    destruct (Z.eqb_spec k id) as [->|]; [|lia].
    destruct (mem_true_get _ _ Hmem) as [v ->]; cbn; lia.
  - intros k; rewrite get_adjust, (Z.eqb_sym id k).
    destruct (Z.eqb_spec k id) as [->|]; [|cbn; lia].
    destruct (mem_true_get _ _ Hmem) as [v ->]; cbn; lia.
Qed.

Lemma mem_construct id nm st :
  Dict.mem Z.eqb id (contributors st) = false ->
  Dict.mem Z.eqb id (contributors (construct id nm st)) = true.
Proof.
  intros H; apply mem_In; state_fields; rewrite keys_set_new by exact H.
  apply in_or_app; right; left; reflexivity.
Qed.

(** Lines 124-133: the owner of a change. *)
Lemma count_owner_accounted ign st owner st' :
  consistent ign st ->
  count_owner ign st owner = Some st' ->
  accounted ign st st' (Z.b2z (negb (in_list owner ign)))
            (fun id => Z.b2z ((owner =? id) && negb (in_list owner ign)))
            (fun _ => 0).
Proof.
  intros Hw H; unfold count_owner in H.
  destruct (Dict.mem Z.eqb owner (contributors st)) eqn:Hmem; cbn in H.
  - injection H as <-.
    rewrite (keys_not_ignored_In _ _ _ (constructed_not_ignored _ _ Hw) Hmem).
    eapply accounted_ext; [apply count_commit_accounted; assumption | reflexivity | |];
      intros id; cbn; [rewrite andb_true_r|]; reflexivity.
  - destruct (in_list owner ign) eqn:Hign; cbn in H.
    + injection H as <-.
      eapply accounted_ext; [apply accounted_refl; assumption | reflexivity | |];
        intros id; cbn; [rewrite andb_false_r|]; reflexivity.
    + unbind H. unbind H. injection H as <-.
      eapply accounted_ext.
      * eapply accounted_trans.
        -- apply (construct_accounted ign st owner x0); assumption.
        -- apply count_commit_accounted;
             [apply (construct_accounted ign st owner x0); assumption
             | apply mem_construct; assumption].
      * reflexivity.
      * intros id; cbn; rewrite andb_true_r; reflexivity.
      * reflexivity.
Qed.

(** Lines 142-151: the author of a message. *)
Lemma count_author_accounted ign patch_owner st author_id st' :
  consistent ign st ->
  count_author ign patch_owner st author_id = Some st' ->
  accounted ign st st' 0 (fun _ => 0)
    (fun id => Z.b2z ((author_id =? id) && negb (author_id =? 0)
                      && negb (author_id =? patch_owner)
                      && negb (in_list author_id ign))).
Proof.
  intros Hw H; unfold count_author in H.
  destruct (negb (author_id =? 0) && negb (author_id =? patch_owner)) eqn:Hgo.
  2:{ injection H as <-.
      eapply accounted_ext; [apply accounted_refl; assumption | reflexivity | |];
        intros id; [reflexivity|].
      rewrite <- andb_assoc, <- andb_assoc, (andb_assoc (negb _)), Hgo.
      cbn; rewrite andb_false_r; reflexivity. }
  assert (Hdr : forall id b,
    Z.b2z ((author_id =? id) && b) =
    Z.b2z ((author_id =? id) && negb (author_id =? 0)
           && negb (author_id =? patch_owner) && b)).
  { intros id b. rewrite <- (andb_assoc (author_id =? id)), Hgo, andb_true_r.
    reflexivity. }
  destruct (Dict.mem Z.eqb author_id (contributors st)) eqn:Hmem; cbn in H.
  - injection H as <-.
    eapply accounted_ext; [apply count_review_accounted; assumption | reflexivity | |];
      intros id; [reflexivity|].
    rewrite <- Hdr.
    rewrite (keys_not_ignored_In _ _ _ (constructed_not_ignored _ _ Hw) Hmem).
    cbn; rewrite andb_true_r; reflexivity.
  - destruct (in_list author_id ign) eqn:Hign; cbn in H.
    + injection H as <-.
      eapply accounted_ext; [apply accounted_refl; assumption | reflexivity | |];
        intros id; [reflexivity|].
      rewrite <- Hdr; cbn; rewrite andb_false_r; reflexivity.
    + unbind H. unbind H. injection H as <-.
      eapply accounted_ext.
      * eapply accounted_trans.
        -- apply (construct_accounted ign st author_id x0); assumption.
        -- apply count_review_accounted;
             [apply (construct_accounted ign st author_id x0); assumption
             | apply mem_construct; assumption].
      * reflexivity.
      * reflexivity.
      * intros id; rewrite <- Hdr; cbn; rewrite andb_true_r; reflexivity.
Qed.

(** One message of the thread. *)
Lemma process_message_accounted ign patch_owner st message st' :
  consistent ign st ->
  process_message ign patch_owner st message = Some st' ->
  accounted ign st st' 0 (fun _ => 0)
            (fun id => Z.b2z (credits ign patch_owner id message)).
Proof.
  intros Hw H; unfold process_message in H; unbind H.
  unfold credits; rewrite E.
  destruct x as [author_id|].
  - apply count_author_accounted; assumption.
  - injection H as <-; apply accounted_refl; assumption.
Qed.

(** The whole thread. *)
Lemma process_messages_accounted ign patch_owner messages :
  forall st st',
  consistent ign st ->
  for_each (process_message ign patch_owner) messages st = Some st' ->
  accounted ign st st' 0 (fun _ => 0)
            (fun id => count_if (credits ign patch_owner id) messages).
Proof.
  induction messages as [|m messages IH]; intros st st' Hw H; cbn in H.
  - injection H as <-; apply accounted_refl; assumption.
  - unbind H.
    assert (Hm := process_message_accounted _ _ _ _ _ Hw E).
    assert (Hrest := IH _ _ (proj1 Hm) H).
    eapply accounted_ext; [exact (accounted_trans _ _ _ _ _ _ _ _ _ _ Hm Hrest) | | |].
    + reflexivity.
    + reflexivity.
    + intros id; rewrite count_if_cons; reflexivity.
Qed.

(** ** One change, one repository, the whole run *)

Lemma process_review_tallied ign st review st' :
  consistent ign st ->
  process_review ign st review = Some st' ->
  tallied project_additions project_deletions ign [review] st st' /\
  total_additions st' = total_additions st /\
  total_deletions st' = total_deletions st.
Proof.
  intros Hw H; unfold process_review in H.
  unbind H; rename x into insertions, E into Eins.
  unbind H; rename x into deletions, E into Edel.
  unbind H; rename x into user_id, E into Eowner.
  unbind H; rename x into st1, E into Est1.
  unbind H; rename x into review_number, E into Enum.
  unbind H; rename x into patch_owner, E into Eowner'.
  unbind H; rename x into details, E into Edetails.
  unbind H; rename x into messages_field, E into Efield.
  unbind H; rename x into messages, E into Emessages.
  assert (patch_owner = user_id) as -> by congruence.
  set (st0 := with_project (project_additions st + insertions)
                           (project_deletions st + deletions) st) in *.
  assert (Hw0 : consistent ign st0) by (destruct Hw; constructor; assumption).
  assert (Ho := count_owner_accounted _ _ _ _ Hw0 Est1).
  assert (Hm := process_messages_accounted _ _ _ _ _ (proj1 Ho) H).
  destruct (accounted_trans _ _ _ _ _ _ _ _ _ _ Ho Hm)
    as (Hw' & Ht & Hc & Hr & Htr & Hta & Htd & Hpa & Hpd).
  assert (Hmsgs : review_messages review = messages).
  { unfold review_messages; rewrite Enum; cbn [bind].
    rewrite Edetails; cbn [bind]; rewrite Efield; cbn [bind].
    rewrite Emessages; reflexivity. }
  assert (Hev : commit_event ign review = negb (in_list user_id ign))
    by (unfold commit_event; rewrite Eowner; reflexivity).
  assert (Hby : forall id, owned_by id review = (user_id =? id))
    by (intros id; unfold owned_by; rewrite Eowner; reflexivity).
  subst st0; state_fields.
  split; [|split; [exact Hta | exact Htd]].
  unfold tallied; split; [exact Hw'|].
  cbn [sum_of fold_right]; repeat split.
  - rewrite Ht, count_if_cons, Hev.
    change (count_if (commit_event ign) []) with 0; clear; lia.
  - intros id; specialize (Hc id).
    change (commits_of (mkState _ _ _ _ _ _ _ _) id) with (commits_of st id) in Hc.
    rewrite Hc, count_if_cons, Hev, Hby.
    match goal with |- context [count_if ?p []] => change (count_if p []) with 0 end.
    clear; lia.
  - intros id; specialize (Hr id).
    change (reviews_of (mkState _ _ _ _ _ _ _ _) id) with (reviews_of st id) in Hr.
    rewrite Hr; unfold review_events; rewrite Eowner, Hmsgs.
    clear; lia.
  - exact Htr.
  - rewrite Hpa; unfold insertions_of; rewrite Eins; clear; lia.
  - rewrite Hpd; unfold deletions_of; rewrite Edel; clear; lia.
Qed.

Lemma tallied_nil adds dels ign st :
  consistent ign st -> tallied adds dels ign [] st st.
Proof.
  intros Hw; unfold tallied; split; [exact Hw|].
  repeat split; intros; cbn; lia.
Qed.

Lemma tallied_app adds dels ign l1 l2 st1 st2 st3 :
  tallied adds dels ign l1 st1 st2 ->
  tallied adds dels ign l2 st2 st3 ->
  tallied adds dels ign (l1 ++ l2) st1 st3.
Proof.
  intros (_ & Ht1 & Hc1 & Hr1 & A1 & B1 & C1)
         (Hw & Ht2 & Hc2 & Hr2 & A2 & B2 & C2).
  unfold tallied; split; [exact Hw|].
  repeat split; intros; rewrite ?count_if_app, ?sum_of_app.
  - lia.
  - rewrite Hc2, Hc1; lia.
  - rewrite Hr2, Hr1; lia.
  - congruence.
  - lia.
  - lia.
Qed.

Lemma process_reviews_tallied ign reviews :
  forall st st',
  consistent ign st ->
  for_each (process_review ign) reviews st = Some st' ->
  tallied project_additions project_deletions ign reviews st st' /\
  total_additions st' = total_additions st /\
  total_deletions st' = total_deletions st.
Proof.
  induction reviews as [|r reviews IH]; intros st st' Hw H; cbn in H.
  - injection H as <-; split; [apply tallied_nil; assumption | split; reflexivity].
  - unbind H.
    destruct (process_review_tallied _ _ _ _ Hw E) as (H1 & A1 & D1).
    destruct (IH _ _ (proj1 H1) H) as (H2 & A2 & D2).
    split; [exact (tallied_app _ _ _ [r] reviews _ _ _ H1 H2) | split; congruence].
Qed.

Lemma process_repository_tallied ign rel st repo st' :
  consistent ign st ->
  process_repository ign rel st repo = Some st' ->
  tallied total_additions total_deletions ign (reviews_of_repository rel repo) st st'.
Proof.
  intros Hw H; unfold process_repository in H.
  unbind H; rename x into reviews. unbind H; rename x into st1.
  injection H as <-.
  unfold reviews_of_repository; rewrite E.
  assert (Hw0 : consistent ign (with_project 0 0 st))
    by (destruct Hw; constructor; assumption).
  destruct (process_reviews_tallied _ _ _ _ Hw0 E0)
    as ((Hw1 & Ht & Hc & Hr & Htr & Hpa & Hpd) & Hta & Htd).
  unfold tallied; split; [destruct Hw1; constructor; assumption|].
  cbn in *; repeat split; auto; lia.
Qed.

Lemma process_repositories_tallied ign rel repos :
  forall st st',
  consistent ign st ->
  for_each (process_repository ign rel) repos st = Some st' ->
  tallied total_additions total_deletions ign
          (flat_map (reviews_of_repository rel) repos) st st'.
Proof.
  induction repos as [|repo repos IH]; intros st st' Hw H; cbn in H.
  - injection H as <-; apply tallied_nil; assumption.
  - unbind H.
    assert (H1 := process_repository_tallied _ _ _ _ _ Hw E).
    exact (tallied_app _ _ _ _ _ _ _ _ H1 (IH _ _ (proj1 H1) H)).
Qed.

Lemma initial_consistent ign : consistent ign initial_state.
Proof.
  constructor; cbn; auto; constructor.
Qed.

(** The state a completed aggregation leaves. *)
Lemma aggregate_tallied config st :
  aggregate config = Some st ->
  tallied total_additions total_deletions (ignored_users config)
          (processed_reviews config) initial_state st.
Proof.
  intros H; apply (process_repositories_tallied _ _ _ _ _ (initial_consistent _) H).
Qed.

Lemma sum_of_cons {A : Type} (w : A -> Z) (x : A) (l : list A) :
  sum_of w (x :: l) = w x + sum_of w l.
Proof. reflexivity. Qed.

(** ** Lines 157-161: [total_reviews] and the reportable list *)

Lemma collect_fold d :
  forall st cl,
  fold_left collect_step d (st, cl) =
  (with_total_reviews
     (total_reviews st + sum_of (fun kc => review_count (snd kc)) d) st,
   cl ++ filter reportable (Dict.values d)).
Proof.
  induction d as [|[k v] d IH]; intros st cl.
  - destruct st; cbn; rewrite Z.add_0_r, app_nil_r; reflexivity.
  - cbn [fold_left collect_step snd].
    destruct (reportable v) eqn:Hv; rewrite IH; cbn [Dict.values map snd filter];
      rewrite Hv; unfold with_total_reviews; cbn; rewrite Z.add_assoc;
      rewrite <- ?app_assoc; reflexivity.
Qed.

Lemma collect_eq st :
  collect st =
  (with_total_reviews
     (total_reviews st + sum_of (fun kc => review_count (snd kc)) (contributors st))
     st,
   filter reportable (Dict.values (contributors st))).
Proof.
  unfold collect; rewrite collect_fold; reflexivity.
Qed.

(** ** [sorted(..., reverse=True)] *)

Section Sorting.
Context {A : Type} (key : A -> Z).

Lemma insert_reverse_perm x l : Permutation (insert_reverse key x l) (x :: l).
Proof.
  induction l as [|y l IH]; cbn; [apply Permutation_refl|].
  destruct (key x <? key y); [|apply Permutation_refl].
  eapply Permutation_trans; [apply perm_skip, IH | apply perm_swap].
Qed.

Lemma sorted_reverse_perm l : Permutation (sorted_reverse key l) l.
Proof.
  induction l as [|x l IH]; cbn; [constructor|].
  eapply Permutation_trans; [apply insert_reverse_perm | apply perm_skip, IH].
Qed.

Lemma insert_reverse_sorted x l :
  Sorted (descending key) l -> Sorted (descending key) (insert_reverse key x l).
Proof.
  induction 1 as [|y l Hl IH Hhd]; cbn; [repeat constructor|].
  destruct (Z.ltb_spec (key x) (key y)) as [Hlt|Hge].
  - constructor; [exact IH|].
    destruct l as [|z l]; cbn.
    + constructor; unfold descending; lia.
    + destruct (key x <? key z); constructor; unfold descending; try lia.
      inversion Hhd; assumption.
  - constructor; [constructor; assumption | constructor; unfold descending; lia].
Qed.

Lemma sorted_reverse_sorted l : Sorted (descending key) (sorted_reverse key l).
Proof.
  induction l as [|x l IH]; cbn; [constructor | apply insert_reverse_sorted, IH].
Qed.

(** Stability: the elements that share a key keep their order. *)
Lemma insert_reverse_stable k x l :
  filter (fun a => key a =? k) (insert_reverse key x l) =
  filter (fun a => key a =? k) (x :: l).
Proof.
  induction l as [|y l IH]; [reflexivity|].
  cbn [insert_reverse].
  destruct (Z.ltb_spec (key x) (key y)) as [Hlt|Hge]; [|reflexivity].
  cbn [filter] in *; rewrite IH.
  destruct (Z.eqb_spec (key x) k), (Z.eqb_spec (key y) k); try reflexivity; lia.
Qed.

Lemma sorted_reverse_stable k l :
  filter (fun a => key a =? k) (sorted_reverse key l) =
  filter (fun a => key a =? k) l.
Proof.
  induction l as [|x l IH]; [reflexivity|].
  cbn [sorted_reverse fold_right]; fold (sorted_reverse key l).
  rewrite insert_reverse_stable; cbn [filter]; rewrite IH; reflexivity.
Qed.

Lemma descending_head x l :
  Sorted (descending key) (x :: l) -> forall y, In y (x :: l) -> key y <= key x.
Proof.
  intros HS; apply Sorted_StronglySorted in HS.
  - inversion HS as [|x' l' _ Hall]; subst.
    intros y [<-|Hin]; [lia|].
    rewrite Forall_forall in Hall; exact (Hall y Hin).
  - intros a b c; unfold descending; lia.
Qed.

(** A stable sort has one possible result: [sorted_reverse] is the list
    [sorted] returns. *)
Lemma stable_descending_unique l1 :
  forall l2,
  Sorted (descending key) l1 -> Sorted (descending key) l2 ->
  (forall k, filter (fun a => key a =? k) l1 = filter (fun a => key a =? k) l2) ->
  l1 = l2.
Proof.
  induction l1 as [|x r1 IH]; intros [|y r2] S1 S2 Hf; [reflexivity| | |].
  - specialize (Hf (key y)); cbn in Hf; rewrite Z.eqb_refl in Hf; discriminate.
  - specialize (Hf (key x)); cbn in Hf; rewrite Z.eqb_refl in Hf; discriminate.
  - assert (Hyx : key y <= key x).
    { apply (descending_head _ _ S1).
      assert (Hin : In y (filter (fun a => key a =? key y) (y :: r2)))
        by (cbn; rewrite Z.eqb_refl; left; reflexivity).
      rewrite <- Hf in Hin; apply filter_In in Hin; tauto. }
    assert (Hxy : key x <= key y).
    { apply (descending_head _ _ S2).
      assert (Hin : In x (filter (fun a => key a =? key x) (x :: r1)))
        by (cbn; rewrite Z.eqb_refl; left; reflexivity).
      rewrite Hf in Hin; apply filter_In in Hin; tauto. }
    assert (Hkey : key y = key x) by lia.
    assert (Hhead := Hf (key x)); cbn in Hhead.
    rewrite Hkey, Z.eqb_refl in Hhead; injection Hhead as Hx Htail; subst y.
    f_equal; apply IH.
    + inversion S1; assumption.
    + inversion S2; assumption.
    + intros k; specialize (Hf k); cbn in Hf.
      destruct (key x =? k); [injection Hf as Hf|]; exact Hf.
Qed.

Lemma sum_of_insert_reverse (w : A -> Z) x l :
  sum_of w (insert_reverse key x l) = w x + sum_of w l.
Proof.
  induction l as [|y l IH]; [reflexivity|].
  cbn [insert_reverse]; destruct (key x <? key y); [|reflexivity].
  rewrite !sum_of_cons, IH; lia.
Qed.

Lemma sum_of_sorted_reverse (w : A -> Z) l :
  sum_of w (sorted_reverse key l) = sum_of w l.
Proof.
  induction l as [|x l IH]; [reflexivity|].
  cbn [sorted_reverse fold_right]; fold (sorted_reverse key l).
  rewrite sum_of_insert_reverse, sum_of_cons, IH; reflexivity.
Qed.

End Sorting.

(** ** The leaderboard loop *)

Section Leaderboard.
Variable key : Contributor -> Z.
Variable total : Z.

Lemma running_share_skip before c :
  (0 <? key c) = false ->
  running_share key total (before ++ [c]) = running_share key total before.
Proof.
  intros H; unfold running_share; rewrite filter_app; cbn [filter].
  rewrite H, app_nil_r; reflexivity.
Qed.

Lemma running_share_snoc before c :
  (0 <? key c) = true ->
  running_share key total (before ++ [c]) =
  (running_share key total before + share key total c)%Q.
Proof.
  intros H; unfold running_share; rewrite filter_app; cbn [filter].
  rewrite H, fold_left_app; reflexivity.
Qed.

(** The loop prints the lines of the description, the commas of a name
    turned into spaces. *)
Lemma leaderboard_described sorted_list :
  forall before i running lines,
  Forall (fun c => 0 <= key c) sorted_list ->
  i = Z.of_nat (List.length before) + 1 ->
  running = running_share key total before ->
  leaderboard key total i running sorted_list = Some lines ->
  lines = described_lines (replace_char "," " ") key total before sorted_list.
Proof.
  induction sorted_list as [|c rest IH]; intros before i running lines Hpos Hi Hrun H.
  - injection H as <-; reflexivity.
  - inversion Hpos as [|c' rest' Hc Hrest]; subst c' rest'.
    assert (Hnext : i + 1 = Z.of_nat (List.length (before ++ [c])) + 1)
      by (rewrite length_app, Nat2Z.inj_add; cbn; lia).
    cbn [leaderboard described_lines] in *.
    destruct (Z.eqb_spec (key c) 0) as [Hz|Hnz].
    + assert (Hlt : (0 <? key c) = false) by (apply Z.ltb_ge; lia).
      rewrite Hlt; cbn [app].
      apply (IH (before ++ [c]) (i + 1) running lines Hrest Hnext); [|exact H].
      rewrite running_share_skip by exact Hlt; exact Hrun.
    + assert (Hlt : (0 <? key c) = true) by (apply Z.ltb_lt; lia).
      rewrite Hlt.
      destruct (total =? 0); [discriminate|].
      unbind H; rename x into name_str. unbind H; rename x into lines'.
      injection H as <-.
      assert (Hname : name_text c = name_str)
        by (unfold name_text; destruct (name c); inversion E; reflexivity).
      assert (Hrun' : (running + inject_Z (key c) / inject_Z total)%Q =
                      running_share key total (before ++ [c]))
        by (rewrite running_share_snoc by exact Hlt; subst running; reflexivity).
      cbn [app]; f_equal.
      * unfold described_line; rewrite Hname, Hrun', Hi; reflexivity.
      * apply (IH _ _ _ _ Hrest Hnext Hrun' E0).
Qed.

Lemma leaderboard_silent sorted_list :
  forall i running,
  leaderboard key total i running sorted_list = Some [] ->
  sum_of key sorted_list = 0.
Proof.
  induction sorted_list as [|c rest IH]; intros i running H; [reflexivity|].
  cbn [leaderboard] in H; rewrite sum_of_cons.
  destruct (Z.eqb_spec (key c) 0) as [Hz|Hnz].
  - rewrite Hz, (IH _ _ H); reflexivity.
  - destruct (total =? 0); [discriminate|].
    unbind H; unbind H; discriminate.
Qed.

(** The running percentage of the last line printed is the sum of the
    counters over the total. *)
Lemma leaderboard_last sorted_list :
  forall i running lines d,
  leaderboard key total i running sorted_list = Some lines ->
  lines <> [] ->
  total <> 0 /\
  (running_percentage (last lines d) ==
   running + inject_Z (sum_of key sorted_list) / inject_Z total)%Q.
Proof.
  induction sorted_list as [|c rest IH]; intros i running lines d H Hne.
  - injection H as <-; contradiction.
  - cbn [leaderboard] in H; rewrite sum_of_cons.
    destruct (Z.eqb_spec (key c) 0) as [Hz|Hnz].
    + rewrite Hz, Z.add_0_l; exact (IH _ _ _ d H Hne).
    + destruct (Z.eqb_spec total 0) as [|Htotal]; [discriminate|].
      unbind H; rename x into name_str. unbind H; rename x into lines'.
      injection H as <-.
      split; [exact Htotal|].
      destruct lines' as [|l lines'].
      * cbn [last running_percentage].
        rewrite (leaderboard_silent _ _ _ E0), Z.add_0_r; reflexivity.
      * assert (Hne' : l :: lines' <> []) by discriminate.
        destruct (IH _ _ _ d E0 Hne') as [_ Hlast].
        change (last (_ :: l :: lines') d) with (last (l :: lines') d).
        rewrite Hlast, inject_Z_plus; unfold Qdiv; ring.
Qed.

Lemma whole_share :
  total <> 0 -> (0 + inject_Z total / inject_Z total == 1)%Q.
Proof.
  intros H; rewrite Qplus_0_l; apply Qmult_inv_r.
  intros Hq; apply H; unfold Qeq in Hq; cbn in Hq; lia.
Qed.

End Leaderboard.

(** ** The leaderboard loop in arithmetic that rounds *)

Lemma leaderboard_in_exact key total sorted_list :
  forall i running,
  option_map (map exact_line) (leaderboard_in exact key total i running sorted_list)
  = leaderboard key total i running sorted_list.
Proof.
  induction sorted_list as [|c rest IH]; intros i running; [reflexivity|].
  cbn [leaderboard_in leaderboard].
  destruct (key c =? 0); [apply IH|].
  destruct (total =? 0); [reflexivity|].
  cbv zeta; destruct (as_str (name c)) as [name_str|]; [|reflexivity].
  cbn [bind]; rewrite <- IH.
  cbn [exact num of_int fdiv fadd].
  destruct (leaderboard_in exact key total (i + 1) _ rest); reflexivity.
Qed.

Section Rounding.
Variable A : Arith.
Variable u : Q.
Variable big : Z.
Hypothesis Hrounds : rounds_within A u big.
Variable key : Contributor -> Z.
Variable total : Z.

Lemma count_if_printed c rest :
  count_if (printed key) (c :: rest) =
  (if key c =? 0 then 0 else 1) + count_if (printed key) rest.
Proof.
  rewrite count_if_cons; unfold printed; destruct (key c =? 0); reflexivity.
Qed.

Lemma leaderboard_in_length sorted_list :
  forall i running lines,
  leaderboard_in A key total i running sorted_list = Some lines ->
  Z.of_nat (List.length lines) = count_if (printed key) sorted_list.
Proof.
  induction sorted_list as [|c rest IH]; intros i running lines H.
  - injection H as <-; reflexivity.
  - cbn [leaderboard_in] in H; rewrite count_if_printed.
    destruct (key c =? 0).
    + rewrite (IH _ _ _ H); lia.
    + destruct (total =? 0); [discriminate|].
      unbind H; unbind H; injection H as <-.
      cbn [List.length]; rewrite Nat2Z.inj_succ, (IH _ _ _ E0); lia.
Qed.

Lemma final_running_silent sorted_list :
  forall i running,
  leaderboard_in A key total i running sorted_list = Some [] ->
  final_running A key total running sorted_list = running.
Proof.
  induction sorted_list as [|c rest IH]; intros i running H; [reflexivity|].
  cbn [leaderboard_in final_running] in *.
  destruct (key c =? 0); [exact (IH _ _ H)|].
  destruct (total =? 0); [discriminate|].
  unbind H; unbind H; discriminate.
Qed.

(** The running percentage of the last line is what the loop has summed. *)
Lemma leaderboard_in_last sorted_list :
  forall i running lines d,
  leaderboard_in A key total i running sorted_list = Some lines ->
  lines <> [] ->
  total <> 0 /\
  r_running (last lines d) = final_running A key total running sorted_list.
Proof.
  induction sorted_list as [|c rest IH]; intros i running lines d H Hne.
  - injection H as <-; contradiction.
  - cbn [leaderboard_in final_running] in *.
    destruct (key c =? 0); [exact (IH _ _ _ d H Hne)|].
    destruct (Z.eqb_spec total 0) as [|Htotal]; [discriminate|].
    unbind H; rename x into name_str. unbind H; rename x into lines'.
    injection H as <-.
    split; [exact Htotal|].
    destruct lines' as [|l lines'].
    + cbn [last r_running]; rewrite (final_running_silent _ _ _ E0); reflexivity.
    + assert (Hne' : l :: lines' <> []) by discriminate.
      destruct (IH _ _ _ d E0 Hne') as [_ Hlast].
      change (last (_ :: l :: lines') d) with (last (l :: lines') d).
      exact Hlast.
Qed.

Lemma rounding_unit_nonneg : (0 <= u)%Q.
Proof.
  pose proof (add_rounds _ _ _ Hrounds (fzero A) (fzero A)) as H.
  pose proof (zero_exact _ _ _ Hrounds) as Hz.
  eapply Qle_trans; [apply Qabs_nonneg | apply H].
  apply Qabs_Qle_condition; split; lra.
Qed.

Hypothesis Htotal : 0 < total <= big.

Lemma total_positive : (0 < inject_Z total)%Q.
Proof. change 0%Q with (inject_Z 0); rewrite <- Zlt_Qlt; lia. Qed.

Lemma fraction_bounds a :
  0 <= a <= total -> (0 <= inject_Z a / inject_Z total <= 1)%Q.
Proof.
  intros Ha; pose proof total_positive as Ht; split.
  - apply Qle_shift_div_l; [exact Ht|].
    rewrite Qmult_0_l; change 0%Q with (inject_Z 0); rewrite <- Zle_Qle; lia.
  - apply Qle_shift_div_r; [exact Ht|].
    rewrite Qmult_1_l, <- Zle_Qle; lia.
Qed.

Lemma fraction_plus a b :
  (inject_Z (a + b) / inject_Z total ==
   inject_Z a / inject_Z total + inject_Z b / inject_Z total)%Q.
Proof. rewrite inject_Z_plus; unfold Qdiv; ring. Qed.

(** One share, rounded: off by at most [u]. *)
Lemma share_rounds a :
  0 <= a <= total ->
  (Qabs (value A (fdiv A (of_int A a) (of_int A total))
         - inject_Z a / inject_Z total) <= u)%Q.
Proof.
  intros Ha.
  assert (Hx : (value A (of_int A a) == inject_Z a)%Q)
    by (apply (ints_exact _ _ _ Hrounds); lia).
  assert (Hy : (value A (of_int A total) == inject_Z total)%Q)
    by (apply (ints_exact _ _ _ Hrounds); lia).
  pose proof (div_rounds _ _ _ Hrounds (of_int A a) (of_int A total)) as H.
  rewrite Hx, Hy in H; apply H.
  - exact total_positive.
  - change 0%Q with (inject_Z 0); rewrite <- Zle_Qle; lia.
  - rewrite <- Zle_Qle; lia.
Qed.

(** After [k] lines the running percentage is off by at most [2 k u]. *)
Lemma final_running_close sorted_list :
  forall running s k,
  Forall (fun c => 0 <= key c) sorted_list ->
  0 <= s -> s + sum_of key sorted_list <= total -> 0 <= k ->
  (2 * inject_Z (k + count_if (printed key) sorted_list) * u <= 1)%Q ->
  (Qabs (value A running - inject_Z s / inject_Z total) <= 2 * inject_Z k * u)%Q ->
  (Qabs (value A (final_running A key total running sorted_list)
         - inject_Z (s + sum_of key sorted_list) / inject_Z total)
   <= 2 * inject_Z (k + count_if (printed key) sorted_list) * u)%Q.
Proof.
  pose proof rounding_unit_nonneg as Hu.
  induction sorted_list as [|c rest IH]; intros running s k Hpos Hs Hsum Hk Hsmall Hclose.
  - cbn [final_running sum_of fold_right]; change (count_if (printed key) []) with 0.
    rewrite !Z.add_0_r; exact Hclose.
  - inversion Hpos as [|c' rest' Hc Hrest]; subst c' rest'.
    rewrite sum_of_cons in *; rewrite count_if_printed in *.
    assert (Hrest_sum : 0 <= sum_of key rest).
    { clear - Hrest; induction Hrest as [|x l Hx Hl IHl]; [cbn; lia|].
      rewrite sum_of_cons; lia. }
    pose proof (count_if_nonneg (printed key) rest) as Hm.
    cbn [final_running].
    destruct (Z.eqb_spec (key c) 0) as [Hz|Hnz].
    + rewrite Hz in *; rewrite Z.add_0_l in *.
      apply IH; assumption.
    + set (p := fdiv A (of_int A (key c)) (of_int A total)).
      set (m := count_if (printed key) rest) in *.
      assert (Hshare : (Qabs (value A p - inject_Z (key c) / inject_Z total)
                        <= u)%Q) by (apply share_rounds; lia).
      destruct (fraction_bounds s) as [Hs0 Hs1]; [lia|].
      destruct (fraction_bounds (key c)) as [Hc0 Hc1]; [lia|].
      destruct (fraction_bounds (s + key c)) as [Hsc0 Hsc1]; [lia|].
      pose proof (fraction_plus s (key c)) as Hplus.
      assert (Hku : (0 <= inject_Z k * u)%Q).
      { apply Qmult_le_0_compat; [|exact Hu].
        change 0%Q with (inject_Z 0); rewrite <- Zle_Qle; lia. }
      assert (Hmu : (0 <= inject_Z m * u)%Q).
      { apply Qmult_le_0_compat; [|exact Hu].
        change 0%Q with (inject_Z 0); rewrite <- Zle_Qle; lia. }
      assert (Hsmall' : (2 * (inject_Z k + 1 + inject_Z m) * u <= 1)%Q).
      { rewrite !inject_Z_plus in Hsmall.
        change (inject_Z 1) with 1%Q in Hsmall.
        setoid_replace (2 * (inject_Z k + 1 + inject_Z m) * u)%Q
          with (2 * (inject_Z k + (1 + inject_Z m)) * u)%Q by ring.
        exact Hsmall. }
      apply Qabs_Qle_condition in Hclose, Hshare.
      assert (Hadd : (Qabs (value A (fadd A running p)
                            - (value A running + value A p)) <= u)%Q).
      { apply (add_rounds _ _ _ Hrounds), Qabs_Qle_condition.
        split; lra. }
      apply Qabs_Qle_condition in Hadd.
      replace (s + (key c + sum_of key rest)) with ((s + key c) + sum_of key rest)
        by lia.
      replace (k + (1 + m)) with ((k + 1) + m) by lia.
      apply IH; try assumption; try lia.
      * replace (k + 1 + m) with (k + (1 + m)) by lia; exact Hsmall.
      * rewrite (inject_Z_plus k 1); change (inject_Z 1) with 1%Q.
        apply Qabs_Qle_condition; split; lra.
Qed.

(** When the counters add up to the total, the last running percentage is
    within [2 n u] of 1, [n] being the number of lines. *)
Lemma leaderboard_in_whole sorted_list lines d :
  Forall (fun c => 0 <= key c) sorted_list ->
  sum_of key sorted_list = total ->
  (2 * inject_Z (Z.of_nat (List.length lines)) * u <= 1)%Q ->
  leaderboard_in A key total 1 (fzero A) sorted_list = Some lines ->
  lines <> [] ->
  (Qabs (value A (r_running (last lines d)) - 1)
   <= 2 * inject_Z (Z.of_nat (List.length lines)) * u)%Q.
Proof.
  intros Hpos Hsum Hsmall H Hne.
  destruct (leaderboard_in_last _ _ _ _ d H Hne) as [_ ->].
  rewrite (leaderboard_in_length _ _ _ _ H) in *.
  pose proof (final_running_close sorted_list (fzero A) 0 0 Hpos) as Hclose.
  rewrite !Z.add_0_l, Hsum in Hclose.
  assert (Hone : (inject_Z total / inject_Z total == 1)%Q).
  { apply Qmult_inv_r; intros Hq; pose proof total_positive as Ht.
    rewrite Hq in Ht; exact (Qlt_irrefl _ Ht). }
  rewrite Hone in Hclose; apply Hclose; try lia; [exact Hsmall|].
  assert (Hnone : (inject_Z 0 / inject_Z total == 0)%Q)
    by (change (inject_Z 0) with 0%Q; unfold Qdiv; ring).
  rewrite Hnone, (zero_exact _ _ _ Hrounds); change (inject_Z 0) with 0%Q.
  apply Qabs_Qle_condition; split; lra.
Qed.

End Rounding.

(** ** The invariant as a test *)

Lemma in_list_In x l : in_list x l = true <-> In x l.
Proof.
  unfold in_list; rewrite existsb_exists; split.
  - intros (y & Hy & Heq); apply Z.eqb_eq in Heq; subst; assumption.
  - intros H; exists x; split; [assumption | apply Z.eqb_refl].
Qed.

Lemma distinct_NoDup l : distinct l = true -> NoDup l.
Proof.
  induction l as [|x l IH]; cbn; [constructor|].
  rewrite andb_true_iff, negb_true_iff; intros [Hx Hl].
  constructor; [|auto].
  intros Hin; apply in_list_In in Hin; congruence.
Qed.

Lemma same_ids_eq l1 : forall l2, same_ids l1 l2 = true -> l1 = l2.
Proof.
  induction l1 as [|x l1 IH]; intros [|y l2]; cbn; try discriminate; [reflexivity|].
  rewrite andb_true_iff, Z.eqb_eq; intros [-> H]; f_equal; auto.
Qed.

Lemma well_formed_consistent ign st :
  well_formed ign st = true -> consistent ign st.
Proof.
  unfold well_formed; rewrite !andb_true_iff.
  intros [[[[[Hk Hn] Hi] Ha] Hp] Hs]; constructor.
  - apply same_ids_eq; assumption.
  - apply distinct_NoDup; assumption.
  - assumption.
  - apply Forall_forall; intros kc Hin.
    rewrite forallb_forall in Ha; apply Z.eqb_eq, Ha; assumption.
  - apply Forall_forall; intros kc Hin.
    rewrite forallb_forall in Hp; specialize (Hp kc Hin).
    apply andb_true_iff in Hp; destruct Hp as [H1 H2].
    apply Z.leb_le in H1, H2; split; assumption.
  - apply Z.eqb_eq; assumption.
Qed.

(** ** The two queries of a repository *)

Lemma merged_reviews_concat repo rel reviews :
  get_merged_reviews_for_repository repo rel = Some reviews ->
  query (default_branch_url repo) <> None /\
  (stable_branch repo = true -> query (stable_branch_url rel repo) <> None) /\
  reviews = default_branch_changes repo ++ stable_branch_changes rel repo.
Proof.
  unfold get_merged_reviews_for_repository, default_branch_changes,
    stable_branch_changes, query.
  fold (default_branch_url repo); fold (stable_branch_url rel repo).
  intros H.
  unbind H; rewrite E; cbn [bind].
  unbind H; rewrite E0; cbn [bind].
  unbind H; rewrite E1.
  destruct (stable_branch repo).
  - unbind H; rewrite E2; cbn [bind].
    unbind H; rewrite E3; cbn [bind].
    unbind H; rewrite E4.
    injection H as <-.
    repeat split; try discriminate; reflexivity.
  - injection H as <-.
    repeat split; try discriminate. rewrite app_nil_r; reflexivity.
Qed.

Lemma repositories_fetched ign rel repos :
  forall st st',
  for_each (process_repository ign rel) repos st = Some st' ->
  Forall (fun repo =>
            reviews_of_repository rel repo =
            default_branch_changes repo ++ stable_branch_changes rel repo) repos.
Proof.
  induction repos as [|repo repos IH]; intros st st' H; [constructor|].
  cbn in H; unbind H; constructor; [|exact (IH _ _ H)].
  unfold process_repository in E; unbind E.
  unfold reviews_of_repository; rewrite E0.
  apply (merged_reviews_concat _ _ _ E0).
Qed.

Lemma sum_of_ext_in {A : Type} (f g : A -> Z) (l : list A) :
  Forall (fun x => f x = g x) l -> sum_of f l = sum_of g l.
Proof.
  induction 1 as [|x l Hx Hl IH]; [reflexivity|].
  rewrite !sum_of_cons, Hx, IH; reflexivity.
Qed.

(** ** [total_reviews] is left alone while changes are processed *)

Lemma count_owner_total_reviews ign st owner st' :
  count_owner ign st owner = Some st' -> total_reviews st' = total_reviews st.
Proof.
  unfold count_owner; intros H.
  destruct (_ && _).
  - unbind H; unbind H; injection H as <-; reflexivity.
  - destruct (Dict.mem _ _ _); injection H as <-; reflexivity.
Qed.

Lemma process_message_total_reviews ign patch_owner st message st' :
  process_message ign patch_owner st message = Some st' ->
  total_reviews st' = total_reviews st.
Proof.
  unfold process_message; intros H; unbind H.
  destruct x as [author_id|]; [|injection H as <-; reflexivity].
  unfold count_author in H.
  destruct (_ && _); [|injection H as <-; reflexivity].
  destruct (_ && _).
  - unbind H; unbind H; injection H as <-; reflexivity.
  - destruct (Dict.mem _ _ _); injection H as <-; reflexivity.
Qed.

Lemma process_messages_total_reviews ign patch_owner messages :
  forall st st',
  for_each (process_message ign patch_owner) messages st = Some st' ->
  total_reviews st' = total_reviews st.
Proof.
  induction messages as [|m messages IH]; intros st st' H; cbn in H.
  - injection H as <-; reflexivity.
  - unbind H; rewrite (IH _ _ H).
    exact (process_message_total_reviews _ _ _ _ _ E).
Qed.

Lemma process_review_total_reviews ign st review st' :
  process_review ign st review = Some st' ->
  total_reviews st' = total_reviews st.
Proof.
  unfold process_review; intros H.
  do 9 unbind H.
  rewrite (process_messages_total_reviews _ _ _ _ _ H).
  rewrite (count_owner_total_reviews _ _ _ _ E2); reflexivity.
Qed.

(** ** The reportable list *)

Lemma sum_of_reportable (w : Contributor -> Z) (d : list (Z * Contributor)) :
  Forall (fun kc => 0 <= review_count (snd kc) /\ 0 <= commits (snd kc)) d ->
  (forall c, review_count c = 0 -> commits c = 0 -> w c = 0) ->
  sum_of w (filter reportable (Dict.values d)) = sum_of (fun kc => w (snd kc)) d.
Proof.
  intros Hpos Hw; induction Hpos as [|[k c] d [Hr Hc] Hd IH]; [reflexivity|].
  unfold Dict.values in *; cbn [map filter snd] in *; rewrite sum_of_cons.
  cbn [snd].
  unfold reportable at 1.
  destruct (Z.ltb_spec 0 (review_count c)); cbn [orb].
  - rewrite sum_of_cons, IH; reflexivity.
  - destruct (Z.ltb_spec 0 (commits c)).
    + rewrite sum_of_cons, IH; reflexivity.
    + rewrite IH, (Hw c) by lia; reflexivity.
Qed.

Lemma In_values_keyed (d : list (Z * Contributor)) c :
  Forall (fun kc => account_id (snd kc) = fst kc) d ->
  In c (Dict.values d) -> In (account_id c) (Dict.keys d).
Proof.
  intros Ha Hin; unfold Dict.values, Dict.keys in *.
  apply in_map_iff in Hin; destruct Hin as ([k c'] & Heq & Hin); cbn in Heq; subst c'.
  rewrite Forall_forall in Ha; specialize (Ha _ Hin); cbn [fst snd] in Ha.
  rewrite Ha; apply in_map_iff; exists (k, c); auto.
Qed.

(** ** Messages *)

Lemma getitem_contains obj key v :
  getitem obj key = Some v -> contains obj key = Some true.
Proof.
  destruct obj; cbn; try discriminate.
  induction d as [|[k' v'] d IH]; cbn; [discriminate|].
  destruct (String.eqb key k'); [reflexivity | exact IH].
Qed.

(** * The claims *)

(** C1. When the aggregation completes, [total_commits] is the number of
    change events whose owner is not ignored, every occurrence of a change in
    the fetched lists counted; the [commits] counter of an account is the
    number of those events the account owns, and the counters add up to
    [total_commits].  Each such event, from whatever state of the loop it is
    processed, raises [total_commits] and the counter of the owner by one and
    leaves the [commits] of every other account as they are. *)
Theorem total_commits_counts_commit_events config st :
  aggregate config = Some st ->
  total_commits st =
    count_if (commit_event (ignored_users config)) (processed_reviews config) /\
  (forall id,
     commits_of st id =
       count_if (fun r => owned_by id r && commit_event (ignored_users config) r)
                (processed_reviews config)) /\
  sum_of (fun kc => commits (snd kc)) (contributors st) = total_commits st /\
  (forall ign st0 review owner st1,
     well_formed ign st0 = true ->
     process_review ign st0 review = Some st1 ->
     owner_account_id review = Some owner ->
     in_list owner ign = false ->
     total_commits st1 = total_commits st0 + 1 /\
     commits_of st1 owner = commits_of st0 owner + 1 /\
     (forall id, id <> owner -> commits_of st1 id = commits_of st0 id)).
Proof.
  intros H; destruct (aggregate_tallied _ _ H) as (Hw & Ht & Hc & _).
  split; [exact Ht|]; split; [|split; [exact (commits_add_up _ _ Hw)|]].
  - intros id; rewrite Hc; reflexivity.
  - intros ign st0 review owner st1 Hwf Hstep Howner Hign.
    destruct (process_review_tallied _ _ _ _ (well_formed_consistent _ _ Hwf) Hstep)
      as ((_ & Ht1 & Hc1 & _) & _).
    assert (Hev : commit_event ign review = true)
      by (unfold commit_event; rewrite Howner, Hign; reflexivity).
    assert (Hby : forall id, owned_by id review = (owner =? id))
      by (intros id; unfold owned_by; rewrite Howner; reflexivity).
    split; [rewrite Ht1, count_if_cons, Hev; reflexivity|]; split.
    + rewrite Hc1, count_if_cons, Hev, Hby, Z.eqb_refl; reflexivity.
    + intros id Hne; rewrite Hc1, count_if_cons, Hev, Hby.
      destruct (Z.eqb_spec owner id) as [Heq|_]; [congruence|].
      cbn; apply Z.add_0_r.
Qed.

(** C2. Processing a change never touches [total_reviews]: it is still zero
    when the aggregation completes.  The loop over the contributor map then
    sets it to the sum of the [review_count] of all the contributors of the
    map, which it leaves as it is. *)
Theorem total_reviews_is_derived config st :
  aggregate config = Some st ->
  (forall ign st0 review st1,
     process_review ign st0 review = Some st1 ->
     total_reviews st1 = total_reviews st0) /\
  total_reviews st = 0 /\
  total_reviews (fst (collect st)) =
    sum_of (fun kc => review_count (snd kc)) (contributors st) /\
  contributors (fst (collect st)) = contributors st.
Proof.
  intros H; destruct (aggregate_tallied _ _ H) as (_ & _ & _ & _ & Htr & _).
  split; [exact process_review_total_reviews|].
  split; [exact Htr|].
  rewrite collect_eq; cbn; rewrite Htr; split; reflexivity.
Qed.

(** C3. [Contributor(...)] is called at most once for an account id and never
    for an ignored one; the reportable list holds no contributor whose
    [account_id] is ignored. *)
Theorem contributors_constructed_once config st :
  aggregate config = Some st ->
  NoDup (constructed st) /\
  (forall id, In id (constructed st) -> in_list id (ignored_users config) = false) /\
  (forall c, In c (snd (collect st)) ->
             in_list (account_id c) (ignored_users config) = false).
Proof.
  intros H; destruct (aggregate_tallied _ _ H) as ([Hk Hn Hi Ha Hp Hs] & _).
  assert (Hkeys : forall id, In id (Dict.keys (contributors st)) ->
                             in_list id (ignored_users config) = false).
  { intros id Hin; unfold keys_not_ignored in Hi.
    rewrite forallb_forall in Hi; apply negb_true_iff, Hi; exact Hin. }
  split; [exact Hn|]; split.
  - intros id Hin; apply Hkeys; rewrite Hk; exact Hin.
  - intros c Hin; rewrite collect_eq in Hin; cbn [snd] in Hin.
    apply filter_In in Hin; destruct Hin as [Hin _].
    apply Hkeys, In_values_keyed; assumption.
Qed.

(** C4. [get_merged_reviews_for_repository] returns the changes of the
    default-branch query, followed, for a repository with a stable branch, by
    those of the stable-branch query, none removed.  So the totals of a
    completed run are sums over the two lists of every repository: a change
    that is in both lists adds its insertions and deletions twice and credits
    its owner and the authors of its messages twice. *)
Theorem overlapping_changes_count_twice config st :
  aggregate config = Some st ->
  (forall repo rel reviews,
     get_merged_reviews_for_repository repo rel = Some reviews ->
     exists found,
       query (default_branch_url repo) = Some found /\
       if stable_branch repo
       then exists found',
              query (stable_branch_url rel repo) = Some found' /\
              reviews = found ++ found'
       else reviews = found) /\
  let rel := release_name config in
  let ign := ignored_users config in
  let both (w : list json -> Z) :=
    sum_of (fun repo => w (default_branch_changes repo)
                        + w (stable_branch_changes rel repo))
           (repositories config) in
  total_additions st = both (sum_of insertions_of) /\
  total_deletions st = both (sum_of deletions_of) /\
  total_commits st = both (count_if (commit_event ign)) /\
  (forall id, commits_of st id
              = both (count_if (fun r => owned_by id r && commit_event ign r))) /\
  (forall id, reviews_of st id = both (sum_of (review_events ign id))).
Proof.
  intros H; split.
  - intros repo rel reviews Hget.
    destruct (merged_reviews_concat _ _ _ Hget) as (H1 & H2 & ->).
    unfold default_branch_changes, stable_branch_changes.
    destruct (query (default_branch_url repo)) as [found|]; [|contradiction].
    exists found; split; [reflexivity|].
    destruct (stable_branch repo); [|apply app_nil_r].
    destruct (query (stable_branch_url rel repo)) as [found'|];
      [|exfalso; apply H2; reflexivity].
    exists found'; split; reflexivity.
  - destruct (aggregate_tallied _ _ H) as (_ & Ht & Hc & Hr & _ & Ha & Hd).
    assert (Hf := repositories_fetched _ _ _ _ _ H).
    unfold processed_reviews in *; cbn zeta.
    repeat split; intros.
    + rewrite Ha, sum_of_flat_map; cbn [total_additions initial_state].
      rewrite Z.add_0_l; apply sum_of_ext_in.
      eapply Forall_impl; [|exact Hf]; cbn beta; intros repo ->.
      apply sum_of_app.
    + rewrite Hd, sum_of_flat_map; cbn [total_deletions initial_state].
      rewrite Z.add_0_l; apply sum_of_ext_in.
      eapply Forall_impl; [|exact Hf]; cbn beta; intros repo ->.
      apply sum_of_app.
    + rewrite Ht, count_if_flat_map; cbn [total_commits initial_state].
      rewrite Z.add_0_l; apply sum_of_ext_in.
      eapply Forall_impl; [|exact Hf]; cbn beta; intros repo ->.
      apply count_if_app.
    + rewrite Hc, count_if_flat_map.
      change (commits_of initial_state id) with 0.
      rewrite Z.add_0_l; apply sum_of_ext_in.
      eapply Forall_impl; [|exact Hf]; cbn beta; intros repo ->.
      apply count_if_app.
    + rewrite Hr, sum_of_flat_map.
      change (reviews_of initial_state id) with 0.
      rewrite Z.add_0_l; apply sum_of_ext_in.
      eapply Forall_impl; [|exact Hf]; cbn beta; intros repo ->.
      apply sum_of_app.
Qed.

(** C5, as the script has it.  The first four characters of a body are
    dropped, whatever they are, and the rest is decoded: parsing fails exactly
    when [json.loads] fails on the rest, and two bodies that differ in their
    first four characters only parse alike. *)
Theorem response_body_drops_four_characters text :
  response_body_to_json text = json_loads (drop 4 text) /\
  (response_body_to_json text = None <-> json_loads (drop 4 text) = None) /\
  (forall a b c d a' b' c' d' rest,
     text = String a (String b (String c (String d rest))) ->
     response_body_to_json text =
     response_body_to_json (String a' (String b' (String c' (String d' rest))))).
Proof.
  unfold response_body_to_json; split; [reflexivity|].
  split; [split; intros H; exact H|].
  intros a b c d a' b' c' d' rest ->; reflexivity.
Qed.

Lemma described_lines_nonneg sorted_list config st0 (key : Contributor -> Z) :
  aggregate config = Some st0 ->
  (key = review_count \/ key = commits) ->
  Permutation sorted_list (snd (collect st0)) ->
  Forall (fun c => 0 <= key c) sorted_list.
Proof.
  intros H Hkey Hperm.
  destruct (aggregate_tallied _ _ H) as ([_ _ _ _ Hp _] & _).
  apply (Permutation_Forall (Permutation_sym Hperm)).
  rewrite collect_eq; cbn [snd].
  apply Forall_forall; intros c Hin.
  apply filter_In in Hin; destruct Hin as [Hin _].
  unfold Dict.values in Hin; apply in_map_iff in Hin.
  destruct Hin as (kc & <- & Hin).
  rewrite Forall_forall in Hp; specialize (Hp _ Hin).
  destruct Hkey as [-> | ->]; tauto.
Qed.

(** X15. In reviews mode the lines printed are, for the contributors of the
    sorted list whose [review_count] is positive and in that order, the rank
    counted from one, the name with every comma turned into a space, the
    [review_count], its share of [total_reviews] and the running sum of the
    shares through this rank, joined by commas; in commits mode the same is
    printed for [commits] and [total_commits]. *)
Theorem leaderboard_lines args config out :
  main args config = Some out ->
  exists st0,
    aggregate config = Some st0 /\
    let st := fst (collect st0) in
    let cl := snd (collect st0) in
    (collect_reviews args = true ->
     out = map format_line
             (described_lines (replace_char "," " ") review_count (total_reviews st)
                [] (sorted_reverse review_count cl))) /\
    (collect_reviews args = false -> collect_commits args = true ->
     out = map format_line
             (described_lines (replace_char "," " ") commits (total_commits st)
                [] (sorted_reverse commits cl))).
Proof.
  unfold main; intros H; unbind H; rename x into st0.
  exists st0; split; [exact E|].
  destruct (collect st0) as [st cl] eqn:Hcollect; cbn [fst snd].
  assert (Hcl : cl = snd (collect st0)) by (rewrite Hcollect; reflexivity).
  unfold report in H; split.
  - intros Hr; rewrite Hr in H; unbind H; injection H as <-; f_equal.
    apply (leaderboard_described review_count (total_reviews st) _ [] 1 0%Q);
      try reflexivity; [|exact E0].
    apply (described_lines_nonneg _ config st0); auto.
    rewrite <- Hcl; apply sorted_reverse_perm.
  - intros Hr Hc; rewrite Hr, Hc in H; unbind H; injection H as <-; f_equal.
    apply (leaderboard_described commits (total_commits st) _ [] 1 0%Q);
      try reflexivity; [|exact E0].
    apply (described_lines_nonneg _ config st0); auto.
    rewrite <- Hcl; apply sorted_reverse_perm.
Qed.

(** The reportable list sorted for reviews mode: a stable, descending
    rearrangement of the contributors taken in the order of construction. *)
Lemma sorted_list_is_stable config st :
  aggregate config = Some st ->
  let cl := snd (collect st) in
  let sorted_list := sorted_reverse review_count cl in
  map account_id (Dict.values (contributors st)) = constructed st /\
  cl = filter reportable (Dict.values (contributors st)) /\
  Sorted (descending review_count) sorted_list /\
  Permutation sorted_list cl /\
  (forall k,
     filter (fun c => review_count c =? k) sorted_list =
     filter (fun c => review_count c =? k) cl).
Proof.
  intros H; destruct (aggregate_tallied _ _ H) as ([Hk _ _ Ha _ _] & _).
  cbn zeta; rewrite collect_eq; cbn [snd].
  split; [|split; [reflexivity|split; [apply sorted_reverse_sorted|split]]].
  - rewrite <- Hk; unfold Dict.values, Dict.keys; rewrite map_map.
    apply map_ext_in; intros kc Hin.
    rewrite Forall_forall in Ha; exact (Ha _ Hin).
  - apply sorted_reverse_perm.
  - intros k; apply sorted_reverse_stable.
Qed.

(** The last line of a leaderboard loop run on the collected state. *)
Lemma last_line_is_whole config st0 :
  aggregate config = Some st0 ->
  let st := fst (collect st0) in
  let cl := snd (collect st0) in
  (forall lines d,
     leaderboard review_count (total_reviews st) 1 0
                 (sorted_reverse review_count cl) = Some lines ->
     lines <> [] ->
     (running_percentage (last lines d) == 1)%Q) /\
  (forall lines d,
     leaderboard commits (total_commits st) 1 0
                 (sorted_reverse commits cl) = Some lines ->
     lines <> [] ->
     (running_percentage (last lines d) == 1)%Q).
Proof.
  intros H; destruct (aggregate_tallied _ _ H)
    as ([_ _ _ _ Hp Hs] & _ & _ & _ & Htr & _).
  cbn zeta; rewrite collect_eq; cbn [fst snd].
  split; intros lines d Hl Hne;
    destruct (leaderboard_last _ _ _ _ _ _ d Hl Hne) as [Htotal ->];
    rewrite sum_of_sorted_reverse, sum_of_reportable by (auto; intros; assumption).
  - cbn [total_reviews with_total_reviews] in *.
    rewrite Htr in *; cbn [total_reviews initial_state Z.add] in *.
    apply whole_share; exact Htotal.
  - cbn [total_commits with_total_reviews] in *.
    rewrite Hs; apply whole_share; exact Htotal.
Qed.

Lemma last_of_map {A B : Type} (f : A -> B) (l : list A) (d : A) :
  last (map f l) (f d) = f (last l d).
Proof.
  induction l as [|x [|y l] IH]; [reflexivity | reflexivity | exact IH].
Qed.

(** What [main] prints in reviews mode and in commits mode: the loop of the
    mode returns the lines of the description, and these are formatted. *)
Lemma main_prints args config out :
  main args config = Some out ->
  collect_reviews args = true \/ collect_commits args = true ->
  exists st0,
    aggregate config = Some st0 /\
    let st := fst (collect st0) in
    let cl := snd (collect st0) in
    leaderboard (mode_key args) (mode_total args st) 1 0
                (sorted_reverse (mode_key args) cl)
    = Some (printed_lines args st cl) /\
    out = map format_line (printed_lines args st cl).
Proof.
  unfold main; intros H Hmode; unbind H; rename x into st0.
  exists st0; split; [exact E|].
  assert (Hnonneg : forall key, key = review_count \/ key = commits ->
            Forall (fun c => 0 <= key c)
                   (sorted_reverse key (snd (collect st0)))).
  { intros key Hkey; apply (described_lines_nonneg _ config st0 key E Hkey).
    apply sorted_reverse_perm. }
  destruct (collect st0) as [st cl]; cbn [fst snd] in *.
  unfold report in H; unfold printed_lines, mode_key, mode_total.
  destruct (collect_reviews args).
  - unbind H; injection H as <-.
    rewrite <- (leaderboard_described review_count (total_reviews st) _ [] 1 0%Q x
                  (Hnonneg _ (or_introl eq_refl)) eq_refl eq_refl E0).
    split; [exact E0 | reflexivity].
  - destruct Hmode as [Hm|Hm]; [discriminate|]; rewrite Hm in H.
    unbind H; injection H as <-.
    rewrite <- (leaderboard_described commits (total_commits st) _ [] 1 0%Q x
                  (Hnonneg _ (or_intror eq_refl)) eq_refl eq_refl E0).
    split; [exact E0 | reflexivity].
Qed.

(** C7. What reviews mode prints are the lines of the reportable list sorted
    on [review_count], largest first, stable for ties: the contributors that
    share a [review_count] stand, in the sorted list the lines are printed
    from, in the order of the reportable list, which is the order in which
    the contributors were constructed. *)
Theorem equal_review_counts_keep_creation_order args config out :
  main args config = Some out ->
  collect_reviews args = true ->
  exists st0,
    aggregate config = Some st0 /\
    let st := fst (collect st0) in
    let cl := snd (collect st0) in
    let sorted_list := sorted_reverse review_count cl in
    out = map format_line
              (described_lines (replace_char "," " ") review_count
                 (total_reviews st) [] sorted_list) /\
    map account_id (Dict.values (contributors st0)) = constructed st0 /\
    cl = filter reportable (Dict.values (contributors st0)) /\
    Sorted (descending review_count) sorted_list /\
    Permutation sorted_list cl /\
    (forall k,
       filter (fun c => review_count c =? k) sorted_list =
       filter (fun c => review_count c =? k) cl).
Proof.
  intros H Hr.
  destruct (main_prints args config out H (or_introl Hr)) as (st0 & Hagg & _ & Hout).
  exists st0; split; [exact Hagg|].
  unfold printed_lines, mode_key, mode_total in Hout; rewrite Hr in Hout.
  split; [exact Hout | exact (sorted_list_is_stable config st0 Hagg)].
Qed.

(** The counters of the mode add up to its total. *)
Lemma mode_total_is_sum args config st0 :
  aggregate config = Some st0 ->
  sum_of (mode_key args) (sorted_reverse (mode_key args) (snd (collect st0)))
  = mode_total args (fst (collect st0)).
Proof.
  intros H; destruct (aggregate_tallied _ _ H)
    as ([_ _ _ _ Hp Hs] & _ & _ & _ & Htr & _).
  rewrite collect_eq; cbn [fst snd]; unfold mode_key, mode_total.
  destruct (collect_reviews args);
    rewrite sum_of_sorted_reverse, sum_of_reportable by (auto; intros; assumption).
  - cbn [total_reviews with_total_reviews].
    rewrite Htr; reflexivity.
  - cbn [total_commits with_total_reviews]; exact Hs.
Qed.

(** The loop in exact arithmetic prints as many lines as it is in any
    arithmetic. *)
Lemma leaderboard_length key total sorted_list i running lines :
  leaderboard key total i running sorted_list = Some lines ->
  Z.of_nat (List.length lines) = count_if (printed key) sorted_list.
Proof.
  rewrite <- leaderboard_in_exact; intros H.
  destruct (leaderboard_in exact key total i running sorted_list) as [rounded|] eqn:E;
    [|discriminate].
  injection H as <-; rewrite length_map.
  exact (leaderboard_in_length exact key total _ _ _ _ E).
Qed.

(** C8. What reviews mode and commits mode print are the formatted lines of
    the description for the counter and the total of the mode, which the
    loop of the leaderboard yields in exact arithmetic.  With floats read as
    exact rationals, the running percentage of the last line printed is 1;
    this holds in particular when every reportable contributor has a
    positive count.  In an arithmetic that rounds within [u], the same loop
    yields as many lines, and the running percentage of the last of them is
    within [2 n u] of 1, [n] being the number of lines. *)
Theorem running_percentage_reaches_one args config out :
  main args config = Some out ->
  collect_reviews args = true \/ collect_commits args = true ->
  exists st0,
    aggregate config = Some st0 /\
    let st := fst (collect st0) in
    let sorted_list := sorted_reverse (mode_key args) (snd (collect st0)) in
    let lines := printed_lines args st (snd (collect st0)) in
    out = map format_line lines /\
    option_map (map exact_line)
      (leaderboard_in exact (mode_key args) (mode_total args st) 1 0%Q sorted_list)
    = Some lines /\
    (forall d, last out (format_line d) = format_line (last lines d)) /\
    (forall d, out <> [] -> (running_percentage (last lines d) == 1)%Q) /\
    (forall (A : Arith) (u : Q) (big : Z) rounded d,
       rounds_within A u big ->
       mode_total args st <= big ->
       (2 * inject_Z (Z.of_nat (List.length out)) * u <= 1)%Q ->
       leaderboard_in A (mode_key args) (mode_total args st) 1 (fzero A)
                      sorted_list = Some rounded ->
       rounded <> [] ->
       List.length rounded = List.length out /\
       (Qabs (value A (r_running (last rounded d)) - 1)
        <= 2 * inject_Z (Z.of_nat (List.length out)) * u)%Q).
Proof.
  intros H Hmode.
  destruct (main_prints args config out H Hmode) as (st0 & Hagg & Hloop & Hout).
  exists st0; split; [exact Hagg|].
  cbv zeta in *; split; [exact Hout|]; split; [|split; [|split]].
  - rewrite leaderboard_in_exact; exact Hloop.
  - intros d; rewrite Hout; apply last_of_map.
  - intros d Hne.
    assert (Hlines : printed_lines args (fst (collect st0)) (snd (collect st0))
                     <> [])
      by (intros Hnil; apply Hne; rewrite Hout, Hnil; reflexivity).
    destruct (last_line_is_whole config st0 Hagg) as [Hreviews Hcommits].
    unfold mode_key, mode_total in Hloop.
    destruct (collect_reviews args).
    + exact (Hreviews _ d Hloop Hlines).
    + exact (Hcommits _ d Hloop Hlines).
  - intros A u big rounded d Hrounds Hbig Hsmall Hrounded Hne.
    assert (Hlen : List.length rounded = List.length out).
    { apply Nat2Z.inj; rewrite Hout, length_map.
      rewrite (leaderboard_length _ _ _ _ _ _ Hloop).
      exact (leaderboard_in_length A _ _ _ _ _ _ Hrounded). }
    split; [exact Hlen|]; rewrite <- Hlen in *.
    assert (Hpos : Forall (fun c => 0 <= mode_key args c)
                     (sorted_reverse (mode_key args) (snd (collect st0)))).
    { apply (described_lines_nonneg _ config st0 _ Hagg);
        [|apply sorted_reverse_perm].
      unfold mode_key; destruct (collect_reviews args); auto. }
    pose proof (mode_total_is_sum args config st0 Hagg) as Hsum.
    destruct (leaderboard_in_last A _ _ _ _ _ _ d Hrounded Hne) as [Htotal _].
    apply (leaderboard_in_whole A u big Hrounds (mode_key args)
             (mode_total args (fst (collect st0))))
      with (sorted_list := sorted_reverse (mode_key args) (snd (collect st0)));
      try assumption.
    split; [|exact Hbig].
    assert (0 <= sum_of (mode_key args)
                   (sorted_reverse (mode_key args) (snd (collect st0)))); [|lia].
    clear - Hpos; induction Hpos as [|x l Hx Hl IHl]; [cbn; lia|].
    rewrite sum_of_cons; lia.
Qed.

(** C9. A message whose author has account id 0 is handled like a message
    without author: whatever the state, the owner of the change and the
    ignored accounts, it constructs no contributor and credits no review. *)
Theorem zero_author_is_no_author ign patch_owner st message author :
  getitem message "author" = Some author ->
  getitem author "_account_id" = Some (JInt 0) ->
  process_message ign patch_owner st message = Some st /\
  (forall id, credits ign patch_owner id message = false) /\
  (forall message',
     contains message' "author" = Some false ->
     process_message ign patch_owner st message' = Some st /\
     (forall id, credits ign patch_owner id message' = false)).
Proof.
  intros Ha Hid.
  assert (Hm : message_author message = Some (Some 0)).
  { unfold message_author; rewrite (getitem_contains _ _ _ Ha); cbn [bind].
    rewrite Ha; cbn [bind]; rewrite Hid; reflexivity. }
  split; [|split].
  - unfold process_message; rewrite Hm; reflexivity.
  - intros id; unfold credits; rewrite Hm; cbn.
    rewrite andb_false_r; reflexivity.
  - intros message' Hno.
    assert (Hm' : message_author message' = Some None)
      by (unfold message_author; rewrite Hno; reflexivity).
    split.
    + unfold process_message; rewrite Hm'; reflexivity.
    + intros id; unfold credits; rewrite Hm'; reflexivity.
Qed.

Lemma count_if_ext {A : Type} (p q : A -> bool) (l : list A) :
  (forall x, p x = q x) -> count_if p l = count_if q l.
Proof.
  intros H; unfold count_if; rewrite (filter_ext p q H); reflexivity.
Qed.

(** C10. A change whose owner is ignored still adds its insertions and
    deletions to the totals of the project, which the end of the repository
    adds to the totals of the run; its messages credit their authors as they
    would were the owner not ignored; no commit is counted. *)
Theorem ignored_owner_skips_commit_only ign st review owner st' :
  well_formed ign st = true ->
  owner_account_id review = Some owner ->
  in_list owner ign = true ->
  process_review ign st review = Some st' ->
  project_additions st' = project_additions st + insertions_of review /\
  project_deletions st' = project_deletions st + deletions_of review /\
  total_commits st' = total_commits st /\
  (forall id, commits_of st' id = commits_of st id) /\
  (forall id, reviews_of st' id = reviews_of st id
              + count_if (credits ign owner id) (review_messages review)) /\
  (forall ign2 st2 st2',
     well_formed ign2 st2 = true ->
     (forall a, a <> owner -> in_list a ign2 = in_list a ign) ->
     process_review ign2 st2 review = Some st2' ->
     forall id, reviews_of st2' id - reviews_of st2 id
                = reviews_of st' id - reviews_of st id) /\
  (forall rel repo s s',
     well_formed ign s = true ->
     process_repository ign rel s repo = Some s' ->
     total_additions s' = total_additions s
                          + sum_of insertions_of (reviews_of_repository rel repo) /\
     total_deletions s' = total_deletions s
                          + sum_of deletions_of (reviews_of_repository rel repo)).
Proof.
  intros Hwf Howner Hign H.
  destruct (process_review_tallied _ _ _ _ (well_formed_consistent _ _ Hwf) H)
    as ((_ & Ht & Hc & Hr & _ & Hpa & Hpd) & _).
  assert (Hev : commit_event ign review = false)
    by (unfold commit_event; rewrite Howner, Hign; reflexivity).
  assert (Hrev : forall id, reviews_of st' id = reviews_of st id
                   + count_if (credits ign owner id) (review_messages review)).
  { intros id; rewrite Hr; cbn [sum_of fold_right]; unfold review_events.
    rewrite Howner, Z.add_0_r; reflexivity. }
  split; [|split; [|split; [|split; [|split; [exact Hrev|split]]]]].
  - rewrite Hpa; cbn [sum_of fold_right]; lia.
  - rewrite Hpd; cbn [sum_of fold_right]; lia.
  - rewrite Ht, count_if_cons, Hev; cbn; apply Z.add_0_r.
  - intros id; rewrite Hc, count_if_cons, Hev, andb_false_r; cbn; apply Z.add_0_r.
  - intros ign2 st2 st2' Hwf2 Hagree H2 id.
    destruct (process_review_tallied _ _ _ _ (well_formed_consistent _ _ Hwf2) H2)
      as ((_ & _ & _ & Hr2 & _) & _).
    rewrite Hr2, Hrev; cbn [sum_of fold_right]; unfold review_events.
    rewrite Howner, Z.add_0_r.
    rewrite (count_if_ext (credits ign2 owner id) (credits ign owner id)); [lia|].
    intros m; unfold credits.
    destruct (message_author m) as [[a|]|]; try reflexivity.
    destruct (Z.eqb_spec a owner) as [->|Hne].
    + rewrite !andb_false_r; reflexivity.
    + rewrite (Hagree a Hne); reflexivity.
  - intros rel repo s s' Hs Hrepo.
    destruct (process_repository_tallied _ _ _ _ _
                (well_formed_consistent _ _ Hs) Hrepo)
      as (_ & _ & _ & _ & _ & Ha & Hd).
    split; [exact Ha | exact Hd].
Qed.

(** * Further properties *)

(** ** Loops *)

Lemma for_each_Forall {S A : Type} (body : S -> A -> option S) (P : A -> Prop) :
  (forall st x st', body st x = Some st' -> P x) ->
  forall l st st', for_each body l st = Some st' -> Forall P l.
Proof.
  intros Hbody; induction l as [|x l IH]; intros st st' H; [constructor|].
  cbn in H; unbind H; constructor; [exact (Hbody _ _ _ E) | exact (IH _ _ H)].
Qed.

Lemma for_each_invariant {S A : Type} (body : S -> A -> option S) (I : S -> Prop) :
  (forall st x st', I st -> body st x = Some st' -> I st') ->
  forall l st st', I st -> for_each body l st = Some st' -> I st'.
Proof.
  intros Hbody; induction l as [|x l IH]; intros st st' HI H; cbn in H.
  - injection H as <-; exact HI.
  - unbind H; exact (IH _ _ (Hbody _ _ _ HI E) H).
Qed.

Lemma for_each_measure {S A : Type} (body : S -> A -> option S)
    (I : S -> Prop) (m : S -> Z) (w : A -> Z) :
  (forall st x st', I st -> body st x = Some st' -> I st' /\ m st' = m st + w x) ->
  forall l st st',
  I st -> for_each body l st = Some st' -> I st' /\ m st' = m st + sum_of w l.
Proof.
  intros Hbody; induction l as [|x l IH]; intros st st' HI H; cbn in H.
  - injection H as <-; split; [exact HI | cbn; lia].
  - unbind H; destruct (Hbody _ _ _ HI E) as [HI' Hm].
    destruct (IH _ _ HI' H) as [HI'' Hm'].
    split; [exact HI''|]; rewrite Hm', Hm, sum_of_cons; lia.
Qed.

Lemma count_if_sum {A : Type} (p : A -> bool) (l : list A) :
  count_if p l = sum_of (fun x => Z.b2z (p x)) l.
Proof.
  induction l as [|x l IH]; [reflexivity|].
  rewrite count_if_cons, sum_of_cons, IH; reflexivity.
Qed.

Lemma adjust_new {V : Type} (f : V -> V) (k : Z) (v : V) (d : list (Z * V)) :
  Dict.mem Z.eqb k d = false ->
  Dict.adjust Z.eqb f k (d ++ [(k, v)]) = d ++ [(k, f v)].
Proof.
  induction d as [|[k' v'] d IH]; cbn; [rewrite Z.eqb_refl; reflexivity|].
  destruct (k =? k'); [discriminate|]; intros H; rewrite (IH H); reflexivity.
Qed.

(** ** A property of the contributor map kept by the whole aggregation *)

Section Kept.
Variable ign : list Z.
Variable J : State -> Prop.
Hypothesis J_project : forall st a d, J st -> J (with_project a d st).
Hypothesis J_totals : forall st a d, J st -> J (with_totals a d st).
Hypothesis J_owner :
  forall st owner st',
  consistent ign st -> J st -> count_owner ign st owner = Some st' -> J st'.
Hypothesis J_author :
  forall patch_owner st author_id st',
  consistent ign st -> J st ->
  count_author ign patch_owner st author_id = Some st' -> J st'.

Lemma process_message_kept patch_owner st message st' :
  consistent ign st /\ J st ->
  process_message ign patch_owner st message = Some st' ->
  consistent ign st' /\ J st'.
Proof.
  intros [Hw HJ] H.
  split; [exact (proj1 (process_message_accounted _ _ _ _ _ Hw H))|].
  unfold process_message in H; unbind H.
  destruct x as [author_id|]; [exact (J_author _ _ _ _ Hw HJ H)|].
  injection H as <-; exact HJ.
Qed.

Lemma process_review_kept st review st' :
  consistent ign st /\ J st ->
  process_review ign st review = Some st' ->
  consistent ign st' /\ J st'.
Proof.
  intros [Hw HJ] H.
  split; [exact (proj1 (proj1 (process_review_tallied _ _ _ _ Hw H)))|].
  unfold process_review in H; do 9 unbind H.
  assert (Hw0 : consistent ign (with_project (project_additions st + x)
                                             (project_deletions st + x0) st))
    by (destruct Hw; constructor; assumption).
  assert (H2 := J_owner _ _ _ Hw0 (J_project _ _ _ HJ) E2).
  assert (Hw2 := proj1 (count_owner_accounted _ _ _ _ Hw0 E2)).
  exact (proj2 (for_each_invariant _ (fun s => consistent ign s /\ J s)
                  (process_message_kept x4) _ _ _
                  (conj Hw2 H2) H)).
Qed.

Lemma process_repository_kept rel st repo st' :
  consistent ign st /\ J st ->
  process_repository ign rel st repo = Some st' ->
  consistent ign st' /\ J st'.
Proof.
  intros [Hw HJ] H.
  split; [exact (proj1 (process_repository_tallied _ _ _ _ _ Hw H))|].
  unfold process_repository in H; unbind H; unbind H; injection H as <-.
  assert (Hw0 : consistent ign (with_project 0 0 st))
    by (destruct Hw; constructor; assumption).
  apply J_totals.
  exact (proj2 (for_each_invariant _ (fun s => consistent ign s /\ J s)
                  process_review_kept _ _ _
                  (conj Hw0 (J_project _ _ _ HJ)) E0)).
Qed.

Lemma process_repositories_kept rel repos st st' :
  consistent ign st /\ J st ->
  for_each (process_repository ign rel) repos st = Some st' ->
  consistent ign st' /\ J st'.
Proof.
  apply (for_each_invariant _ (fun s => consistent ign s /\ J s)).
  intros st0 repo st1; apply process_repository_kept.
Qed.

End Kept.

(** ** Every contributor has been credited *)

Lemma reportable_incr_commits c :
  reportable c = true -> reportable (incr_commits c) = true.
Proof.
  unfold reportable; cbn; rewrite !orb_true_iff, !Z.ltb_lt; lia.
Qed.

Lemma reportable_incr_review_count c :
  reportable c = true -> reportable (incr_review_count c) = true.
Proof.
  unfold reportable; cbn; rewrite !orb_true_iff, !Z.ltb_lt; lia.
Qed.

Lemma count_owner_reportable ign st owner st' :
  consistent ign st ->
  Forall (fun kc => reportable (snd kc) = true) (contributors st) ->
  count_owner ign st owner = Some st' ->
  Forall (fun kc => reportable (snd kc) = true) (contributors st').
Proof.
  intros _ HJ H; unfold count_owner in H.
  destruct (Dict.mem Z.eqb owner (contributors st)) eqn:Hmem; cbn in H.
  - injection H as <-; state_fields.
    apply Forall_adjust; [|exact HJ].
    intros k v; apply reportable_incr_commits.
  - destruct (in_list owner ign); cbn in H; [injection H as <-; exact HJ|].
    unbind H; unbind H; injection H as <-; state_fields.
    rewrite (set_new _ _ _ Hmem), (adjust_new _ _ _ _ Hmem).
    apply Forall_app; split; [exact HJ | repeat constructor].
Qed.

Lemma count_author_reportable ign patch_owner st author_id st' :
  consistent ign st ->
  Forall (fun kc => reportable (snd kc) = true) (contributors st) ->
  count_author ign patch_owner st author_id = Some st' ->
  Forall (fun kc => reportable (snd kc) = true) (contributors st').
Proof.
  intros _ HJ H; unfold count_author in H.
  destruct (_ && _); [|injection H as <-; exact HJ].
  destruct (Dict.mem Z.eqb author_id (contributors st)) eqn:Hmem; cbn in H.
  - injection H as <-; state_fields.
    apply Forall_adjust; [|exact HJ].
    intros k v; apply reportable_incr_review_count.
  - destruct (in_list author_id ign); cbn in H; [injection H as <-; exact HJ|].
    unbind H; unbind H; injection H as <-; state_fields.
    rewrite (set_new _ _ _ Hmem), (adjust_new _ _ _ _ Hmem).
    apply Forall_app; split; [exact HJ | repeat constructor].
Qed.

Lemma aggregate_reportable config st :
  aggregate config = Some st ->
  Forall (fun kc => reportable (snd kc) = true) (contributors st).
Proof.
  intros H.
  refine (proj2 (process_repositories_kept (ignored_users config) _ _ _
                   (count_owner_reportable _) (count_author_reportable _)
                   _ _ _ _ (conj (initial_consistent _) _) H));
    [intros st0 a d HJ; exact HJ | intros st0 a d HJ; exact HJ | constructor].
Qed.

Lemma filter_all {A : Type} (p : A -> bool) (l : list A) :
  Forall (fun x => p x = true) l -> filter p l = l.
Proof.
  induction 1 as [|x l Hx Hl IH]; cbn; [reflexivity|].
  rewrite Hx, IH; reflexivity.
Qed.

Lemma collect_keeps_everyone config st :
  aggregate config = Some st ->
  snd (collect st) = Dict.values (contributors st).
Proof.
  intros H; rewrite collect_eq; cbn [snd]; apply filter_all.
  unfold Dict.values; apply Forall_map; exact (aggregate_reportable _ _ H).
Qed.

(** ** The names of the contributors *)

Lemma count_owner_named ign st owner st' :
  consistent ign st ->
  Forall named_after_account (contributors st) ->
  count_owner ign st owner = Some st' ->
  Forall named_after_account (contributors st').
Proof.
  intros _ HJ H; unfold count_owner in H.
  destruct (Dict.mem Z.eqb owner (contributors st)) eqn:Hmem; cbn in H.
  - injection H as <-; state_fields.
    apply Forall_adjust; [|exact HJ]; intros k v Hv; exact Hv.
  - destruct (in_list owner ign); cbn in H; [injection H as <-; exact HJ|].
    unbind H; unbind H; injection H as <-; state_fields.
    rewrite (set_new _ _ _ Hmem), (adjust_new _ _ _ _ Hmem).
    apply Forall_app; split; [exact HJ|].
    constructor; [exists x; split; assumption | constructor].
Qed.

Lemma count_author_named ign patch_owner st author_id st' :
  consistent ign st ->
  Forall named_after_account (contributors st) ->
  count_author ign patch_owner st author_id = Some st' ->
  Forall named_after_account (contributors st').
Proof.
  intros _ HJ H; unfold count_author in H.
  destruct (_ && _); [|injection H as <-; exact HJ].
  destruct (Dict.mem Z.eqb author_id (contributors st)) eqn:Hmem; cbn in H.
  - injection H as <-; state_fields.
    apply Forall_adjust; [|exact HJ]; intros k v Hv; exact Hv.
  - destruct (in_list author_id ign); cbn in H; [injection H as <-; exact HJ|].
    unbind H; unbind H; injection H as <-; state_fields.
    rewrite (set_new _ _ _ Hmem), (adjust_new _ _ _ _ Hmem).
    apply Forall_app; split; [exact HJ|].
    constructor; [exists x; split; assumption | constructor].
Qed.

Lemma aggregate_named config st :
  aggregate config = Some st ->
  Forall named_after_account (contributors st).
Proof.
  intros H.
  refine (proj2 (process_repositories_kept (ignored_users config) _ _ _
                   (count_owner_named _) (count_author_named _)
                   _ _ _ _ (conj (initial_consistent _) _) H));
    [intros st0 a d HJ; exact HJ | intros st0 a d HJ; exact HJ | constructor].
Qed.

(** ** The sum of the review counts *)

Lemma count_owner_sum_reviews ign st owner st' :
  consistent ign st ->
  count_owner ign st owner = Some st' ->
  sum_review_count st' = sum_review_count st.
Proof.
  intros _ H; unfold count_owner, sum_review_count in *.
  destruct (Dict.mem Z.eqb owner (contributors st)) eqn:Hmem; cbn in H.
  - injection H as <-; state_fields.
    apply (sum_of_adjust_same review_count); reflexivity.
  - destruct (in_list owner ign); cbn in H; [injection H as <-; reflexivity|].
    unbind H; unbind H; injection H as <-; state_fields.
    rewrite (set_new _ _ _ Hmem), (adjust_new _ _ _ _ Hmem), sum_of_app.
    cbn; lia.
Qed.

Lemma count_author_sum_reviews ign patch_owner st author_id st' :
  consistent ign st ->
  count_author ign patch_owner st author_id = Some st' ->
  sum_review_count st' =
  sum_review_count st
  + Z.b2z (negb (author_id =? 0) && negb (author_id =? patch_owner)
           && negb (in_list author_id ign)).
Proof.
  intros Hw H; unfold count_author, sum_review_count in *.
  destruct (negb (author_id =? 0) && negb (author_id =? patch_owner));
    [|injection H as <-; cbn; lia].
  cbn [andb].
  destruct (Dict.mem Z.eqb author_id (contributors st)) eqn:Hmem; cbn in H.
  - injection H as <-; state_fields.
    rewrite (keys_not_ignored_In _ _ _ (constructed_not_ignored _ _ Hw) Hmem).
    rewrite (sum_of_adjust review_count) by reflexivity.
    rewrite Hmem; reflexivity.
  - destruct (in_list author_id ign); cbn in H; [injection H as <-; cbn; lia|].
    unbind H; unbind H; injection H as <-; state_fields.
    rewrite (set_new _ _ _ Hmem), (adjust_new _ _ _ _ Hmem), sum_of_app.
    cbn; lia.
Qed.

Lemma process_message_sum_reviews ign patch_owner st message st' :
  consistent ign st ->
  process_message ign patch_owner st message = Some st' ->
  consistent ign st' /\
  sum_review_count st' =
  sum_review_count st + Z.b2z (crediting ign patch_owner message).
Proof.
  intros Hw H.
  split; [exact (proj1 (process_message_accounted _ _ _ _ _ Hw H))|].
  unfold process_message in H; unbind H; unfold crediting; rewrite E.
  destruct x as [author_id|]; [exact (count_author_sum_reviews _ _ _ _ _ Hw H)|].
  injection H as <-; cbn; lia.
Qed.

Lemma process_review_sum_reviews ign st review st' :
  consistent ign st ->
  process_review ign st review = Some st' ->
  consistent ign st' /\
  sum_review_count st' = sum_review_count st + crediting_messages ign review.
Proof.
  intros Hw H.
  split; [exact (proj1 (proj1 (process_review_tallied _ _ _ _ Hw H)))|].
  assert (Hthread : review_messages review =
                    match thread review with Some l => l | None => [] end)
    by reflexivity.
  unfold process_review in H; do 9 unbind H.
  assert (x4 = x1) as -> by congruence.
  assert (Hw0 : consistent ign (with_project (project_additions st + x)
                                             (project_deletions st + x0) st))
    by (destruct Hw; constructor; assumption).
  assert (Howner := count_owner_sum_reviews _ _ _ _ Hw0 E2).
  assert (Hw2 := proj1 (count_owner_accounted _ _ _ _ Hw0 E2)).
  destruct (for_each_measure _ (consistent ign) sum_review_count _
              (fun s m s' Hs Hm => process_message_sum_reviews ign x1 s m s' Hs Hm)
              _ _ _ Hw2 H) as [_ Hsum].
  unfold crediting_messages; rewrite E1, Hthread; unfold thread.
  rewrite E3; cbn [bind]; rewrite E5; cbn [bind]; rewrite E6; cbn [bind]; rewrite E7.
  rewrite Hsum, Howner, count_if_sum; reflexivity.
Qed.

Lemma process_repository_sum_reviews ign rel st repo st' :
  consistent ign st ->
  process_repository ign rel st repo = Some st' ->
  consistent ign st' /\
  sum_review_count st' =
  sum_review_count st
  + sum_of (crediting_messages ign) (reviews_of_repository rel repo).
Proof.
  intros Hw H.
  split; [exact (proj1 (process_repository_tallied _ _ _ _ _ Hw H))|].
  unfold process_repository in H; unbind H; unbind H; injection H as <-.
  assert (Hw0 : consistent ign (with_project 0 0 st))
    by (destruct Hw; constructor; assumption).
  destruct (for_each_measure _ (consistent ign) sum_review_count _
              (process_review_sum_reviews ign) _ _ _ Hw0 E0) as [_ Hsum].
  unfold reviews_of_repository; rewrite E; exact Hsum.
Qed.

Lemma aggregate_sum_reviews config st :
  aggregate config = Some st ->
  sum_review_count st =
  sum_of (crediting_messages (ignored_users config)) (processed_reviews config).
Proof.
  intros H.
  destruct (for_each_measure _ (consistent (ignored_users config))
              sum_review_count _
              (process_repository_sum_reviews _ (release_name config))
              _ _ _ (initial_consistent _) H) as [_ Hsum].
  rewrite Hsum; unfold processed_reviews; rewrite sum_of_flat_map; reflexivity.
Qed.

(** ** Requests that fail *)

Lemma query_None_cases url :
  query url = None ->
  requests_get url = None \/
  exists text,
    requests_get url = Some text /\
    (response_body_to_json text = None \/
     exists body, response_body_to_json text = Some body /\ iterate body = None).
Proof.
  unfold query, get; intros H.
  destruct (requests_get url) as [text|]; [right; exists text | left; reflexivity].
  split; [reflexivity|]; cbn [bind] in H.
  destruct (response_body_to_json text) as [body|]; [right; exists body | left; reflexivity].
  split; [reflexivity | exact H].
Qed.

Lemma merged_reviews_None repo rel :
  get_merged_reviews_for_repository repo rel = None <->
  query (default_branch_url repo) = None \/
  (stable_branch repo = true /\ query (stable_branch_url rel repo) = None).
Proof.
  clear format_f colored.
  unfold get_merged_reviews_for_repository, query.
  fold (default_branch_url repo); fold (stable_branch_url rel repo).
  destruct (get (default_branch_url repo)) as [r|]; cbn [bind]; [|tauto].
  destruct (response_body_to_json r) as [body|]; cbn [bind]; [|tauto].
  destruct (iterate body) as [found|]; cbn [bind]; [|tauto].
  destruct (stable_branch repo).
  - destruct (get (stable_branch_url rel repo)) as [r'|]; cbn [bind]; [|tauto].
    destruct (response_body_to_json r') as [body'|]; cbn [bind]; [|tauto].
    destruct (iterate body') as [found'|]; cbn [bind]; [|tauto].
    split; [discriminate | intros [H|[_ H]]; discriminate].
  - split; [discriminate | intros [H|[H _]]; discriminate].
Qed.

Lemma repositories_all_fetched ign rel repos st st' :
  for_each (process_repository ign rel) repos st = Some st' ->
  Forall (fun repo => get_merged_reviews_for_repository repo rel <> None) repos.
Proof.
  apply for_each_Forall; intros s repo s' H.
  unfold process_repository in H; unbind H; rewrite E; discriminate.
Qed.

(** ** Changes that lack a key *)

Lemma int_field_getitem obj key z :
  int_field obj key = Some z -> is_some (getitem obj key) = true.
Proof.
  unfold int_field; intros H; unbind H; rewrite E; reflexivity.
Qed.

Lemma process_review_keys ign st review st' :
  process_review ign st review = Some st' -> keys_present review = true.
Proof.
  intros H; unfold process_review in H; do 9 unbind H.
  unfold keys_present.
  rewrite (int_field_getitem _ _ _ E), (int_field_getitem _ _ _ E0),
    (int_field_getitem _ _ _ E3), E3; cbn [andb bind].
  rewrite E5, E6; cbn [is_some].
  unfold owner_account_id in E1; unbind E1; rewrite E8; cbn [bind].
  rewrite (int_field_getitem _ _ _ E1); reflexivity.
Qed.

Lemma process_repository_keys ign rel st repo st' :
  process_repository ign rel st repo = Some st' ->
  Forall (fun r => keys_present r = true) (reviews_of_repository rel repo).
Proof.
  intros H; unfold process_repository in H; unbind H; unbind H.
  unfold reviews_of_repository; rewrite E.
  exact (for_each_Forall _ _ (process_review_keys ign) _ _ _ E0).
Qed.

(** ** The leaderboard loop never divides by zero *)

Lemma leaderboard_succeeds key total sorted_list :
  Forall (fun c => key c <> 0 ->
                   total <> 0 /\ is_some (as_str (name c)) = true) sorted_list ->
  forall i running,
  exists lines, leaderboard key total i running sorted_list = Some lines.
Proof.
  induction 1 as [|c rest Hc Hrest IH]; intros i running; cbn [leaderboard].
  - exists []; reflexivity.
  - destruct (Z.eqb_spec (key c) 0) as [_|Hnz]; [apply IH|].
    destruct (Hc Hnz) as [Htotal Hname].
    destruct (Z.eqb_spec total 0) as [|_]; [contradiction|].
    destruct (as_str (name c)) as [name_str|]; [|discriminate]; cbn [bind].
    destruct (IH (i + 1) (running + inject_Z (key c) / inject_Z total)%Q)
      as [lines ->].
    eexists; reflexivity.
Qed.

Lemma sum_of_bounds {A : Type} (w : A -> Z) (l : list A) x :
  Forall (fun y => 0 <= w y) l -> In x l -> w x <= sum_of w l.
Proof.
  induction 1 as [|y l Hy Hl IH]; intros Hin; [destruct Hin|].
  assert (0 <= sum_of w l).
  { clear - Hl; induction Hl as [|z l Hz Hl IH];
      [cbn; lia | rewrite sum_of_cons; lia]. }
  rewrite sum_of_cons; destruct Hin as [->|Hin]; [lia | specialize (IH Hin); lia].
Qed.

Lemma In_collect_contributors st c :
  In c (snd (collect st)) -> exists k, In (k, c) (contributors st).
Proof.
  rewrite collect_eq; cbn [snd]; intros Hin.
  apply filter_In in Hin; destruct Hin as [Hin _].
  unfold Dict.values in Hin; apply in_map_iff in Hin.
  destruct Hin as ([k c'] & Heq & Hin); cbn in Heq; subst c'.
  exists k; exact Hin.
Qed.

Lemma report_succeeds config st0 args :
  aggregate config = Some st0 ->
  forallb (fun kc => is_some (as_str (name (snd kc)))) (contributors st0) = true ->
  exists out, report args (fst (collect st0)) (snd (collect st0)) = Some out.
Proof.
  intros H Hnames.
  destruct (aggregate_tallied _ _ H) as ([_ _ _ _ Hp Hs] & _ & _ & _ & Htr & _).
  rewrite forallb_forall in Hnames.
  assert (Hboard : forall key total,
            (forall k c, In (k, c) (contributors st0) ->
                         key c <> 0 -> total <> 0) ->
            exists lines,
              leaderboard key total 1 0 (sorted_reverse key (snd (collect st0)))
              = Some lines).
  { intros key total Htotal; apply leaderboard_succeeds.
    apply (Permutation_Forall (Permutation_sym (sorted_reverse_perm key _))).
    apply Forall_forall; intros c Hin.
    destruct (In_collect_contributors _ _ Hin) as [k Hk].
    intros Hnz; split; [exact (Htotal k c Hk Hnz) | exact (Hnames _ Hk)]. }
  unfold report.
  destruct (collect_reviews args); [|destruct (collect_commits args)].
  - destruct (Hboard review_count (total_reviews (fst (collect st0)))) as [lines ->];
      [|eexists; reflexivity].
    intros k c Hin Hnz; rewrite collect_eq; cbn [fst total_reviews with_total_reviews].
    rewrite Htr; cbn [total_reviews initial_state Z.add].
    assert (Hle := sum_of_bounds (fun kc => review_count (snd kc))
                                 (contributors st0) (k, c)).
    cbn [snd] in Hle.
    rewrite Forall_forall in Hp; destruct (Hp _ Hin) as [Hc _]; cbn [snd] in Hc.
    assert (review_count c <= sum_of (fun kc => review_count (snd kc))
                                     (contributors st0)).
    { apply Hle; [|exact Hin].
      apply Forall_forall; intros kc Hkc; apply (Hp kc Hkc). }
    lia.
  - destruct (Hboard commits (total_commits (fst (collect st0)))) as [lines ->];
      [|eexists; reflexivity].
    intros k c Hin Hnz; rewrite collect_eq; cbn [fst total_commits with_total_reviews].
    rewrite <- Hs.
    assert (Hle := sum_of_bounds (fun kc => commits (snd kc))
                                 (contributors st0) (k, c)).
    cbn [snd] in Hle.
    rewrite Forall_forall in Hp; destruct (Hp _ Hin) as [_ Hc]; cbn [snd] in Hc.
    assert (commits c <= sum_of (fun kc => commits (snd kc)) (contributors st0)).
    { apply Hle; [|exact Hin].
      apply Forall_forall; intros kc Hkc; apply (Hp kc Hkc). }
    lia.
  - destruct (summary args); eexists; reflexivity.
Qed.

(** ** Ranks and counts of the lines *)

Section Ranks.
Variable strip : string -> string.
Variable key : Contributor -> Z.
Variable total : Z.

Lemma described_lines_none rest :
  Forall (fun c => (0 <? key c) = false) rest ->
  forall before, described_lines strip key total before rest = [].
Proof.
  induction 1 as [|c rest Hc Hrest IH]; intros before; cbn [described_lines];
    [reflexivity|].
  rewrite Hc, IH; reflexivity.
Qed.

Lemma described_lines_counts rest :
  forall before,
  map line_count (described_lines strip key total before rest) =
  filter (fun n => 0 <? n) (map key rest).
Proof.
  induction rest as [|c rest IH]; intros before; cbn [described_lines map filter];
    [reflexivity|].
  rewrite map_app, IH.
  destruct (0 <? key c); reflexivity.
Qed.

Lemma described_lines_ranks rest :
  Sorted (descending key) rest ->
  Forall (fun c => 0 <= key c) rest ->
  forall before,
  map rank (described_lines strip key total before rest) =
  map Z.of_nat
      (seq (S (List.length before))
           (List.length (described_lines strip key total before rest))).
Proof.
  induction rest as [|c rest IH]; intros HS Hpos before; [reflexivity|].
  cbn [described_lines].
  destruct (Z.ltb_spec 0 (key c)) as [Hlt|Hle].
  - cbn [app map List.length seq rank described_line]; f_equal.
    + rewrite Nat2Z.inj_succ; lia.
    + rewrite IH; [|inversion HS; assumption|inversion Hpos; assumption].
      rewrite length_app, Nat.add_1_r; reflexivity.
  - rewrite described_lines_none; [reflexivity|].
    apply Forall_forall; intros y Hy; apply Z.ltb_ge.
    exact (Z.le_trans _ _ _ (descending_head key c rest HS y (or_intror Hy)) Hle).
Qed.

End Ranks.

Lemma StronglySorted_filter {A : Type} (R : A -> A -> Prop) (p : A -> bool) l :
  StronglySorted R l -> StronglySorted R (filter p l).
Proof.
  induction 1 as [|x l Hl IH Hx]; cbn; [constructor|].
  destruct (p x); [|exact IH].
  constructor; [exact IH|].
  apply Forall_forall; intros y Hy; apply filter_In in Hy.
  rewrite Forall_forall in Hx; apply Hx; tauto.
Qed.

Lemma StronglySorted_map {A B : Type} (R : B -> B -> Prop) (f : A -> B) l :
  StronglySorted (fun a b => R (f a) (f b)) l -> StronglySorted R (map f l).
Proof.
  induction 1 as [|x l Hl IH Hx]; cbn; constructor; [exact IH|].
  apply Forall_map; exact Hx.
Qed.

(** ** Commas *)

Lemma count_char_app c s1 s2 :
  count_char c (s1 ++ s2)%string = count_char c s1 + count_char c s2.
Proof.
  induction s1 as [|a s1 IH]; cbn; [reflexivity | rewrite IH; lia].
Qed.

Lemma count_char_replaced s : count_char "," (replace_char "," " " s) = 0.
Proof.
  induction s as [|a s IH]; cbn; [reflexivity|].
  destruct (Ascii.eqb_spec a ","); cbn; [exact IH|].
  destruct (Ascii.eqb_spec a ","); [contradiction | exact IH].
Qed.

Lemma count_char_uint c u :
  (forall d, In d ["0"; "1"; "2"; "3"; "4"; "5"; "6"; "7"; "8"; "9"]%char ->
             Ascii.eqb d c = false) ->
  count_char c (NilEmpty.string_of_uint u) = 0.
Proof.
  intros Hc; induction u; cbn [NilEmpty.string_of_uint count_char];
    rewrite ?Hc, ?IHu by (cbn; tauto); reflexivity.
Qed.

Lemma count_char_str_of_int z : count_char "," (str_of_int z) = 0.
Proof.
  assert (Hu : forall u, count_char "," (NilZero.string_of_uint u) = 0).
  { intros u; unfold NilZero.string_of_uint.
    destruct u; try reflexivity;
      apply count_char_uint; intros d Hd; cbn in Hd;
      repeat (destruct Hd as [<-|Hd]; [reflexivity|]); destruct Hd. }
  unfold str_of_int, NilZero.string_of_int.
  destruct (Z.to_int z); [apply Hu | cbn; apply Hu].
Qed.

Lemma count_char_format_line l :
  (forall q, count_char "," (format_f q) = 0) ->
  count_char "," (format_line l) = 4 + count_char "," (line_name l).
Proof.
  intros Hf; unfold format_line.
  rewrite !count_char_app, !count_char_str_of_int, !Hf.
  change (count_char "," ",") with 1; lia.
Qed.

Lemma described_lines_names key total rest :
  forall before,
  Forall (fun l => count_char "," (line_name l) = 0)
         (described_lines (replace_char "," " ") key total before rest).
Proof.
  induction rest as [|c rest IH]; intros before; cbn [described_lines];
    [constructor|].
  apply Forall_app; split; [|apply IH].
  destruct (0 <? key c); constructor; [apply count_char_replaced | constructor].
Qed.

Lemma get_In {V : Type} (k : Z) (v : V) (d : list (Z * V)) :
  Dict.get Z.eqb k d = Some v -> In (k, v) d.
Proof.
  induction d as [|[k' v'] d IH]; cbn; [discriminate|].
  destruct (Z.eqb_spec k k') as [->|_]; [|auto].
  intros H; injection H as ->; left; reflexivity.
Qed.

Lemma leaderboard_ranks key total sorted_list lines :
  Sorted (descending key) sorted_list ->
  Forall (fun c => 0 <= key c) sorted_list ->
  leaderboard key total 1 0 sorted_list = Some lines ->
  map rank lines = map Z.of_nat (seq 1 (List.length lines)) /\
  map line_count lines = filter (fun n => 0 <? n) (map key sorted_list) /\
  StronglySorted (fun a b => b <= a) (map line_count lines).
Proof.
  intros HS Hpos H.
  rewrite (leaderboard_described key total sorted_list [] 1 0%Q lines Hpos
             eq_refl eq_refl H).
  split; [exact (described_lines_ranks _ key total sorted_list HS Hpos [])|].
  rewrite described_lines_counts; split; [reflexivity|].
  apply StronglySorted_filter, StronglySorted_map, Sorted_StronglySorted;
    [|exact HS].
  intros a b c; unfold descending; lia.
Qed.

(** * Further results *)

(** X1. Every contributor of the map is on the reportable list, in the order
    of construction: a contributor is constructed only when it is credited,
    so the test of line 160 removes nobody. *)
Theorem every_contributor_is_reported config st :
  aggregate config = Some st ->
  snd (collect st) = Dict.values (contributors st) /\
  map account_id (snd (collect st)) = constructed st /\
  (forall c, In c (snd (collect st)) -> 0 < review_count c \/ 0 < commits c).
Proof.
  intros H; assert (Hall := aggregate_reportable _ _ H).
  destruct (aggregate_tallied _ _ H) as ([Hk _ _ Ha _ _] & _).
  rewrite (collect_keeps_everyone _ _ H).
  split; [reflexivity|]; split.
  - rewrite <- Hk; unfold Dict.values, Dict.keys; rewrite map_map.
    apply map_ext_in; intros kc Hin.
    rewrite Forall_forall in Ha; exact (Ha _ Hin).
  - intros c Hin; unfold Dict.values in Hin; apply in_map_iff in Hin.
    destruct Hin as (kc & <- & Hin).
    rewrite Forall_forall in Hall; specialize (Hall _ Hin).
    unfold reportable in Hall; apply orb_true_iff in Hall.
    rewrite !Z.ltb_lt in Hall; exact Hall.
Qed.

Lemma constructed_credited config st :
  aggregate config = Some st ->
  forall id,
  In id (constructed st) <->
  0 < count_if (fun r => owned_by id r && commit_event (ignored_users config) r)
               (processed_reviews config)
  \/ 0 < sum_of (review_events (ignored_users config) id) (processed_reviews config).
Proof.
  intros H id; assert (Hall := aggregate_reportable _ _ H).
  destruct (aggregate_tallied _ _ H) as ([Hk _ _ _ _ _] & _ & Hc & Hr & _).
  specialize (Hc id); specialize (Hr id).
  change (commits_of initial_state id) with 0 in Hc.
  change (reviews_of initial_state id) with 0 in Hr.
  rewrite Z.add_0_l in Hc, Hr; rewrite <- Hc, <- Hr, <- Hk, <- mem_In.
  unfold commits_of, reviews_of; split.
  - intros Hmem; destruct (mem_true_get _ _ Hmem) as [c Hget]; rewrite Hget.
    rewrite Forall_forall in Hall; specialize (Hall _ (get_In _ _ _ Hget)).
    unfold reportable in Hall; apply orb_true_iff in Hall.
    rewrite !Z.ltb_lt in Hall; cbn [snd] in Hall; tauto.
  - destruct (Dict.mem Z.eqb id (contributors st)) eqn:Hmem; [reflexivity|].
    rewrite (mem_false_get _ _ Hmem); lia.
Qed.

(** X2. An account has a [Contributor] exactly when it is credited: it owns a
    fetched change and is not ignored, or a message of a fetched change
    credits it with a review. *)
Theorem contributor_iff_credited config st :
  aggregate config = Some st ->
  forall id,
  In id (constructed st) <->
  0 < count_if (fun r => owned_by id r && commit_event (ignored_users config) r)
               (processed_reviews config)
  \/ 0 < sum_of (review_events (ignored_users config) id) (processed_reviews config).
Proof.
  exact (constructed_credited config st).
Qed.

(** X3. The figure printed as patches reviewed counts messages: after line
    161 [total_reviews] is the number of messages, over all the fetched
    changes, whose author has a non-zero id, is not the owner of the change
    and is not ignored. *)
Theorem total_reviews_counts_crediting_messages config st :
  aggregate config = Some st ->
  total_reviews (fst (collect st)) =
  sum_of (crediting_messages (ignored_users config)) (processed_reviews config).
Proof.
  intros H; destruct (aggregate_tallied _ _ H) as (_ & _ & _ & _ & Htr & _).
  rewrite collect_eq; cbn [fst total_reviews with_total_reviews].
  rewrite Htr; cbn [total_reviews initial_state Z.add].
  exact (aggregate_sum_reviews _ _ H).
Qed.

(** X4. In summary mode a completed aggregation always prints four lines:
    the insertions and the deletions summed over the fetched changes, the
    number of commit events, the number of crediting messages and the number
    of contributors constructed. *)
Theorem summary_report args config st :
  aggregate config = Some st ->
  collect_reviews args = false ->
  collect_commits args = false ->
  summary args = true ->
  let reviews := processed_reviews config in
  let ign := ignored_users config in
  main args config =
  Some [ (colored ("+" ++ str_of_int (sum_of insertions_of reviews)) "green"
          ++ " "
          ++ colored ("-" ++ str_of_int (sum_of deletions_of reviews)) "red"
         )%string;
         (str_of_int (count_if (commit_event ign) reviews)
          ++ " patches merged")%string;
         (str_of_int (sum_of (crediting_messages ign) reviews)
          ++ " patches reviewed")%string;
         (str_of_int (Z.of_nat (List.length (constructed st)))
          ++ " total contributors")%string ].
Proof.
  intros H Hr Hc Hs; cbn zeta.
  destruct (aggregate_tallied _ _ H)
    as ([Hk _ _ _ _ _] & Ht & _ & _ & Htr & Ha & Hd).
  unfold main; rewrite H; cbn [bind].
  assert (Hcl := collect_keeps_everyone _ _ H).
  assert (Hsum := aggregate_sum_reviews _ _ H).
  rewrite collect_eq in *; cbn [snd] in Hcl.
  unfold report; rewrite Hr, Hc, Hs, Hcl.
  cbn [total_additions total_deletions total_commits total_reviews
       with_total_reviews].
  rewrite Ha, Hd, Ht, Htr; cbn [total_additions total_deletions total_commits
                                total_reviews initial_state Z.add].
  unfold sum_review_count in Hsum; rewrite Hsum.
  unfold Dict.values; rewrite length_map.
  rewrite <- Hk; unfold Dict.keys; rewrite length_map; reflexivity.
Qed.

(** X5. There is no partial result: when
    [get_merged_reviews_for_repository] raises for one configured
    repository, the aggregation is aborted, whatever the other repositories
    answer, so the code that prints (lines 163-199) is not reached. *)
Theorem failed_query_aborts_run args config repo :
  In repo (repositories config) ->
  get_merged_reviews_for_repository repo (release_name config) = None ->
  aggregate config = None /\ main args config = None.
Proof.
  intros Hin Hfail.
  assert (Hagg : aggregate config = None).
  { destruct (aggregate config) as [st|] eqn:H; [|reflexivity].
    assert (Hall := repositories_all_fetched _ _ _ _ _ H).
    rewrite Forall_forall in Hall; destruct (Hall _ Hin Hfail). }
  split; [exact Hagg | unfold main; rewrite Hagg; reflexivity].
Qed.

(** X6. [get_merged_reviews_for_repository] raises exactly when its
    default-branch query does or, for a repository with a stable branch, its
    stable-branch query does; a query raises exactly when the request
    raises, the body without its first four characters is no JSON, or the
    value decoded cannot be iterated: it is [None], a boolean or a number. *)
Theorem merged_reviews_fail_with_a_query repo rel :
  (get_merged_reviews_for_repository repo rel = None <->
   query (default_branch_url repo) = None \/
   (stable_branch repo = true /\ query (stable_branch_url rel repo) = None)) /\
  (forall url,
     query url = None <->
     requests_get url = None \/
     exists text,
       requests_get url = Some text /\
       (json_loads (drop 4 text) = None \/
        exists body, json_loads (drop 4 text) = Some body /\ iterate body = None)) /\
  (forall body,
     iterate body = None <->
     body = JNull \/ (exists b, body = JBool b) \/ (exists z, body = JInt z)
     \/ (exists lexeme, body = JFloat lexeme)).
Proof.
  split; [apply merged_reviews_None|]; split.
  - intros url; split; [apply query_None_cases|].
    unfold query, get, response_body_to_json.
    intros [Hget|(text & Hget & [Hload|(body & Hload & Hlist)])];
      rewrite Hget; cbn [bind]; [reflexivity | |]; rewrite Hload; cbn [bind];
      [reflexivity | exact Hlist].
  - intros body; split.
    + destruct body; cbn; intros H; try discriminate; eauto.
    + intros [->|[[b ->]|[[z ->]|[lexeme ->]]]]; reflexivity.
Qed.

(** X7. A fetched change that lacks ['insertions'], ['deletions'],
    ['owner'] with its ['_account_id'] or ['_number'], or whose detail lacks
    ['messages'], aborts the aggregation: the subscript raises and nothing
    catches it. *)
Theorem change_without_key_aborts_run args config review :
  In review (processed_reviews config) ->
  keys_present review = false ->
  aggregate config = None /\ main args config = None.
Proof.
  intros Hin Hkeys.
  assert (Hagg : aggregate config = None).
  { destruct (aggregate config) as [st|] eqn:H; [|reflexivity].
    assert (Hall : Forall (fun r => keys_present r = true)
                          (processed_reviews config)).
    { unfold processed_reviews; apply Forall_flat_map.
      exact (for_each_Forall _ _
               (process_repository_keys (ignored_users config)
                                        (release_name config)) _ _ _ H). }
    rewrite Forall_forall in Hall; rewrite (Hall _ Hin) in Hkeys; discriminate. }
  split; [exact Hagg | unfold main; rewrite Hagg; reflexivity].
Qed.

(** X8. Once the aggregation completes and the names of the contributors
    are strings, every mode prints its report: the divisions by
    [total_reviews] and [total_commits] never raise, because a contributor
    with a non-zero counter makes the total positive. *)
Theorem reports_never_divide_by_zero args config st :
  aggregate config = Some st ->
  forallb (fun kc => is_some (as_str (name (snd kc)))) (contributors st) = true ->
  exists out, main args config = Some out.
Proof.
  intros H Hnames; unfold main; rewrite H; cbn [bind].
  destruct (report_succeeds config st args H Hnames) as [out Hout].
  exists out; destruct (collect st) as [st' cl]; exact Hout.
Qed.

(** The ranks and the counts of the lines a leaderboard loop returns for the
    collected state. *)
Lemma leaderboard_run_ranks config st0 :
  aggregate config = Some st0 ->
  let st := fst (collect st0) in
  let cl := snd (collect st0) in
  (forall lines,
     leaderboard review_count (total_reviews st) 1 0
                 (sorted_reverse review_count cl) = Some lines ->
     map rank lines = map Z.of_nat (seq 1 (List.length lines)) /\
     map line_count lines =
       filter (fun n => 0 <? n) (map review_count (sorted_reverse review_count cl)) /\
     StronglySorted (fun a b => b <= a) (map line_count lines)) /\
  (forall lines,
     leaderboard commits (total_commits st) 1 0
                 (sorted_reverse commits cl) = Some lines ->
     map rank lines = map Z.of_nat (seq 1 (List.length lines)) /\
     map line_count lines =
       filter (fun n => 0 <? n) (map commits (sorted_reverse commits cl)) /\
     StronglySorted (fun a b => b <= a) (map line_count lines)).
Proof.
  intros H; cbn zeta; split; intros lines Hl.
  - apply (fun Hpos => leaderboard_ranks _ _ _ _ (sorted_reverse_sorted _ _)
                           Hpos Hl).
    apply (described_lines_nonneg _ config st0); auto.
    apply sorted_reverse_perm.
  - apply (fun Hpos => leaderboard_ranks _ _ _ _ (sorted_reverse_sorted _ _)
                           Hpos Hl).
    apply (described_lines_nonneg _ config st0); auto.
    apply sorted_reverse_perm.
Qed.

(** X9. The ranks printed are 1, 2, ... without a gap, the counts printed are
    the positive counters of the sorted list, largest first: the
    contributors skipped by the loop all stand after those printed. *)
Theorem ranks_are_consecutive args config out :
  main args config = Some out ->
  collect_reviews args = true \/ collect_commits args = true ->
  exists st0,
    aggregate config = Some st0 /\
    let cl := snd (collect st0) in
    let lines := printed_lines args (fst (collect st0)) cl in
    out = map format_line lines /\
    map rank lines = map Z.of_nat (seq 1 (List.length out)) /\
    map line_count lines =
      filter (fun n => 0 <? n)
             (map (mode_key args) (sorted_reverse (mode_key args) cl)) /\
    StronglySorted (fun a b => b <= a) (map line_count lines).
Proof.
  intros H Hmode.
  destruct (main_prints args config out H Hmode) as (st0 & Hagg & Hloop & Hout).
  exists st0; split; [exact Hagg|].
  cbv zeta in *; split; [exact Hout|].
  assert (Hlen : List.length out
                 = List.length (printed_lines args (fst (collect st0))
                                              (snd (collect st0))))
    by (rewrite Hout; apply length_map).
  rewrite Hlen.
  destruct (leaderboard_run_ranks config st0 Hagg) as [Hreviews Hcommits].
  unfold mode_key, mode_total in *.
  destruct (collect_reviews args).
  - exact (Hreviews _ Hloop).
  - exact (Hcommits _ Hloop).
Qed.

(** The lines of reviews mode and of commits mode, as [main] prints them. *)
Lemma main_leaderboard args config out :
  main args config = Some out ->
  collect_reviews args = true \/ collect_commits args = true ->
  exists key total sorted_list,
    out = map format_line
              (described_lines (replace_char "," " ") key total [] sorted_list).
Proof.
  unfold main; intros H Hmode; unbind H; rename x into st0.
  assert (Hnonneg : forall key, key = review_count \/ key = commits ->
            Forall (fun c => 0 <= key c)
                   (sorted_reverse key (snd (collect st0)))).
  { intros key Hkey; apply (described_lines_nonneg _ config st0 key E Hkey).
    apply sorted_reverse_perm. }
  destruct (collect st0) as [st cl]; cbn [snd] in Hnonneg.
  unfold report in H.
  destruct (collect_reviews args).
  - unbind H; injection H as <-.
    exists review_count, (total_reviews st), (sorted_reverse review_count cl).
    f_equal.
    apply (leaderboard_described review_count (total_reviews st) _ [] 1 0%Q);
      auto.
  - destruct Hmode as [Hm|Hm]; [discriminate|]; rewrite Hm in H.
    unbind H; injection H as <-.
    exists commits, (total_commits st), (sorted_reverse commits cl).
    f_equal.
    apply (leaderboard_described commits (total_commits st) _ [] 1 0%Q); auto.
Qed.

(** X10. A line of a leaderboard can be split on its commas: when ['%f']
    prints no comma, every line printed in reviews mode or in commits mode
    has exactly four of them, whatever the names are. *)
Theorem report_lines_have_four_commas args config out :
  main args config = Some out ->
  collect_reviews args = true \/ collect_commits args = true ->
  (forall q, count_char "," (format_f q) = 0) ->
  Forall (fun text => count_char "," text = 4) out.
Proof.
  intros H Hmode Hf.
  destruct (main_leaderboard args config out H Hmode)
    as (key & total & sorted_list & ->).
  apply Forall_map.
  eapply Forall_impl; [|apply described_lines_names].
  intros l Hl; cbv beta in Hl; rewrite (count_char_format_line l Hf), Hl.
  reflexivity.
Qed.

(** X11. The name kept for a contributor, which is the name its lines are
    printed with, is the ['name'] of the account record fetched for its
    account id. *)
Theorem names_come_from_accounts config st :
  aggregate config = Some st ->
  forall k c,
  In (k, c) (contributors st) ->
  account_id c = k /\
  exists user,
    get_user_by_account_id k = Some user /\ getitem user "name" = Some (name c).
Proof.
  intros H k c Hin; assert (Hnamed := aggregate_named _ _ H).
  destruct (aggregate_tallied _ _ H) as ([_ _ _ Ha _ _] & _).
  rewrite Forall_forall in Ha, Hnamed.
  split; [exact (Ha _ Hin) | exact (Hnamed _ Hin)].
Qed.

Lemma drop_short n :
  forall s, (String.length s <= n)%nat -> drop n s = EmptyString.
Proof.
  induction n as [|n IH]; intros [|a s] Hlen; cbn in *; try reflexivity; try lia.
  apply IH; lia.
Qed.

(** X12. A body of four characters or fewer raises no index error: the
    slice is empty and [json.loads] is handed the empty text. *)
Theorem short_body_is_decoded_as_empty_text text :
  (String.length text <= 4)%nat ->
  response_body_to_json text = json_loads EmptyString.
Proof.
  intros Hlen; unfold response_body_to_json; rewrite (drop_short 4 text Hlen).
  reflexivity.
Qed.

Lemma share_in_unit_interval key total c :
  0 < key c -> key c <= total ->
  (0 < share key total c /\ share key total c <= 1)%Q.
Proof.
  intros Hpos Hle; unfold share.
  assert (Htotal : (0 < inject_Z total)%Q)
    by (change 0%Q with (inject_Z 0); rewrite <- Zlt_Qlt; lia).
  split.
  - apply Qlt_shift_div_l; [exact Htotal|].
    rewrite Qmult_0_l; change 0%Q with (inject_Z 0).
    rewrite <- Zlt_Qlt; exact Hpos.
  - apply Qle_shift_div_r; [exact Htotal|].
    rewrite Qmult_1_l, <- Zle_Qle; exact Hle.
Qed.

Lemma described_lines_shares strip key total rest :
  Forall (fun c => 0 < key c -> key c <= total) rest ->
  forall before,
  Forall (fun l => (0 < percentage l /\ percentage l <= 1)%Q)
         (described_lines strip key total before rest).
Proof.
  induction 1 as [|c rest Hc Hrest IH]; intros before; cbn [described_lines];
    [constructor|].
  apply Forall_app; split; [|apply IH].
  destruct (Z.ltb_spec 0 (key c)) as [Hlt|_]; constructor; [|constructor].
  exact (share_in_unit_interval key total c Hlt (Hc Hlt)).
Qed.

Lemma counters_below_totals config st0 :
  aggregate config = Some st0 ->
  forall c,
  In c (snd (collect st0)) ->
  review_count c <= total_reviews (fst (collect st0)) /\
  commits c <= total_commits (fst (collect st0)).
Proof.
  intros H c Hin.
  destruct (aggregate_tallied _ _ H) as ([_ _ _ _ Hp Hs] & _ & _ & _ & Htr & _).
  destruct (In_collect_contributors _ _ Hin) as [k Hk].
  rewrite collect_eq; cbn [fst total_reviews total_commits with_total_reviews].
  rewrite Htr, <- Hs; cbn [total_reviews initial_state Z.add].
  split.
  - apply (sum_of_bounds (fun kc => review_count (snd kc)) (contributors st0) (k, c));
      [|exact Hk].
    eapply Forall_impl; [|exact Hp]; cbv beta; tauto.
  - apply (sum_of_bounds (fun kc => commits (snd kc)) (contributors st0) (k, c));
      [|exact Hk].
    eapply Forall_impl; [|exact Hp]; cbv beta; tauto.
Qed.

(** The shares of the lines a leaderboard loop returns for the collected
    state. *)
Lemma leaderboard_run_shares config st0 :
  aggregate config = Some st0 ->
  let st := fst (collect st0) in
  let cl := snd (collect st0) in
  (forall lines,
     leaderboard review_count (total_reviews st) 1 0
                 (sorted_reverse review_count cl) = Some lines ->
     Forall (fun l => (0 < percentage l /\ percentage l <= 1)%Q) lines) /\
  (forall lines,
     leaderboard commits (total_commits st) 1 0
                 (sorted_reverse commits cl) = Some lines ->
     Forall (fun l => (0 < percentage l /\ percentage l <= 1)%Q) lines).
Proof.
  intros H; cbn zeta.
  assert (Hbelow := counters_below_totals _ _ H).
  split; intros lines Hl.
  - rewrite (leaderboard_described _ _ _ [] 1 0%Q lines
               (described_lines_nonneg _ config st0 review_count H (or_introl eq_refl)
                  (sorted_reverse_perm _ _))
               eq_refl eq_refl Hl).
    apply described_lines_shares.
    apply (Permutation_Forall (Permutation_sym (sorted_reverse_perm _ _))).
    apply Forall_forall; intros c Hin _; exact (proj1 (Hbelow c Hin)).
  - rewrite (leaderboard_described _ _ _ [] 1 0%Q lines
               (described_lines_nonneg _ config st0 commits H (or_intror eq_refl)
                  (sorted_reverse_perm _ _))
               eq_refl eq_refl Hl).
    apply described_lines_shares.
    apply (Permutation_Forall (Permutation_sym (sorted_reverse_perm _ _))).
    apply Forall_forall; intros c Hin _; exact (proj2 (Hbelow c Hin)).
Qed.

(** X13. With floats read as exact rationals, the share printed on a line is
    a fraction of the whole: it is positive and at most 1, in reviews mode
    and in commits mode. *)
Theorem shares_are_fractions args config out :
  main args config = Some out ->
  collect_reviews args = true \/ collect_commits args = true ->
  exists st0,
    aggregate config = Some st0 /\
    let lines := printed_lines args (fst (collect st0)) (snd (collect st0)) in
    out = map format_line lines /\
    Forall (fun l => (0 < percentage l /\ percentage l <= 1)%Q) lines.
Proof.
  intros H Hmode.
  destruct (main_prints args config out H Hmode) as (st0 & Hagg & Hloop & Hout).
  exists st0; split; [exact Hagg|].
  cbv zeta in *; split; [exact Hout|].
  destruct (leaderboard_run_shares config st0 Hagg) as [Hreviews Hcommits].
  unfold mode_key, mode_total in *.
  destruct (collect_reviews args).
  - exact (Hreviews _ Hloop).
  - exact (Hcommits _ Hloop).
Qed.

Lemma sum_of_Permutation {A : Type} (w : A -> Z) (l l' : list A) :
  Permutation l l' -> sum_of w l = sum_of w l'.
Proof.
  induction 1 as [|x l l' _ IH|x y l|l l' l'' _ IH1 _ IH2];
    rewrite ?sum_of_cons; [reflexivity | rewrite IH; reflexivity | lia | congruence].
Qed.

(** X14. The order of the repositories in the input moves nothing but the
    order of the contributors: two completed runs over the same
    repositories taken in another order end with the same totals, the same
    counters for every account and the same accounts constructed. *)
Theorem repository_order_moves_no_counter config config' st st' :
  ignored_users config' = ignored_users config ->
  release_name config' = release_name config ->
  Permutation (repositories config) (repositories config') ->
  aggregate config = Some st ->
  aggregate config' = Some st' ->
  total_commits st' = total_commits st /\
  total_additions st' = total_additions st /\
  total_deletions st' = total_deletions st /\
  (forall id, commits_of st' id = commits_of st id) /\
  (forall id, reviews_of st' id = reviews_of st id) /\
  Permutation (constructed st) (constructed st').
Proof.
  intros Hign Hrel Hperm H H'.
  assert (Hreviews : Permutation (processed_reviews config)
                                 (processed_reviews config')).
  { unfold processed_reviews; rewrite Hrel.
    apply Permutation_flat_map; exact Hperm. }
  assert (Hcount : forall p : json -> bool,
            count_if p (processed_reviews config')
            = count_if p (processed_reviews config)).
  { intros p; rewrite !count_if_sum; symmetry.
    apply sum_of_Permutation; exact Hreviews. }
  assert (Hsum : forall w : json -> Z,
            sum_of w (processed_reviews config')
            = sum_of w (processed_reviews config)).
  { intros w; symmetry; apply sum_of_Permutation; exact Hreviews. }
  assert (Hin := constructed_credited _ _ H).
  assert (Hin' := constructed_credited _ _ H').
  destruct (aggregate_tallied _ _ H) as ([_ Hn _ _ _ _] & Ht & Hc & Hr & _ & Ha & Hd).
  destruct (aggregate_tallied _ _ H')
    as ([_ Hn' _ _ _ _] & Ht' & Hc' & Hr' & _ & Ha' & Hd').
  rewrite Hign in *.
  split; [rewrite Ht, Ht', Hcount; reflexivity|].
  split; [rewrite Ha, Ha', Hsum; reflexivity|].
  split; [rewrite Hd, Hd', Hsum; reflexivity|].
  split; [intros id; rewrite Hc, Hc', Hcount; reflexivity|].
  split; [intros id; rewrite Hr, Hr', Hsum; reflexivity|].
  apply (NoDup_Permutation Hn Hn'); intros id.
  rewrite Hin, Hin', Hcount, Hsum; reflexivity.
Qed.

End Script.

(** * The script on the recorded responses *)

Module OnRecorded.
Import Recorded JsonReader.

Lemma total_commits_counts_commit_events_witness :
  aggregate web loads config = Some aggregated /\
  count_if (commit_event [9]) (processed_reviews web loads config) = 3 /\
  count_if (fun r => owned_by 2 r && commit_event [9] r)
           (processed_reviews web loads config) = 2.
Proof.
  assert (H : aggregate web loads config = Some aggregated)
    by (vm_compute; reflexivity).
  destruct (total_commits_counts_commit_events web loads config aggregated H)
    as (Htotal & Hcommits & _ & _).
  split; [exact H|]; split.
  - transitivity (total_commits aggregated); [symmetry; exact Htotal | reflexivity].
  - transitivity (commits_of aggregated 2);
      [symmetry; exact (Hcommits 2) | reflexivity].
Defined.

Lemma total_reviews_is_derived_witness :
  aggregate web loads config = Some aggregated /\
  total_reviews aggregated = 0 /\
  sum_of (fun kc => review_count (snd kc)) (contributors aggregated) = 7.
Proof.
  assert (H : aggregate web loads config = Some aggregated)
    by (vm_compute; reflexivity).
  destruct (total_reviews_is_derived web loads config aggregated H)
    as (_ & Hzero & Hsum & _).
  split; [exact H|]; split; [exact Hzero|].
  transitivity (total_reviews (fst (collect aggregated)));
    [symmetry; exact Hsum | reflexivity].
Defined.

Lemma contributors_constructed_once_witness :
  aggregate web loads config = Some aggregated /\
  NoDup (constructed aggregated) /\
  in_list 3 (ignored_users config) = false.
Proof.
  assert (H : aggregate web loads config = Some aggregated)
    by (vm_compute; reflexivity).
  destruct (contributors_constructed_once web loads config aggregated H)
    as (Hnodup & Hignored & _).
  split; [exact H|]; split; [exact Hnodup|].
  apply Hignored; cbn; auto.
Defined.

Lemma overlapping_changes_count_twice_witness :
  aggregate web loads config = Some aggregated /\
  sum_of insertions_of (default_branch_changes web loads keystone) = 22 /\
  sum_of insertions_of (stable_branch_changes web loads "stein" keystone) = 5 /\
  total_additions aggregated = 22 + 5.
Proof.
  assert (H : aggregate web loads config = Some aggregated)
    by (vm_compute; reflexivity).
  destruct (overlapping_changes_count_twice web loads config aggregated H)
    as (_ & Hadd & _).
  split; [exact H|].
  split; [vm_compute; reflexivity|]; split; [vm_compute; reflexivity|].
  rewrite Hadd; vm_compute; reflexivity.
Defined.

Lemma response_body_drops_four_characters_witness :
  response_body_to_json loads (body "[]") = response_body_to_json loads "0123 []".
Proof.
  destruct (response_body_drops_four_characters loads (body "[]")) as (_ & _ & H).
  exact (H _ _ _ _ "0"%char "1"%char "2"%char "3"%char _ eq_refl).
Defined.

Lemma leaderboard_lines_witness :
  main web loads format_fixed6 plain commits_mode config = Some commits_report /\
  commits_report =
    map (format_line format_fixed6)
        (described_lines (replace_char "," " ") commits 3 []
           (sorted_reverse commits (Dict.values (contributors aggregated)))).
Proof.
  assert (H : main web loads format_fixed6 plain commits_mode config
              = Some commits_report) by (vm_compute; reflexivity).
  split; [exact H|].
  destruct (leaderboard_lines web loads format_fixed6 plain commits_mode config
              commits_report H) as (st0 & Hagg & _ & Hcommits).
  assert (Hst : st0 = aggregated).
  { assert (Hrun : aggregate web loads config = Some aggregated)
      by (vm_compute; reflexivity).
    congruence. }
  subst st0; rewrite (Hcommits eq_refl eq_refl); reflexivity.
Defined.

Lemma equal_review_counts_keep_creation_order_witness :
  main web loads format_fixed6 plain reviews_mode config = Some reviews_report /\
  reviews_report =
    map (format_line format_fixed6)
        (described_lines (replace_char "," " ") review_count 7 []
           (sorted_reverse review_count (snd (collect aggregated)))) /\
  map account_id
      (filter (fun c => review_count c =? 2)
              (sorted_reverse review_count (snd (collect aggregated)))) = [1; 2] /\
  constructed aggregated = [1; 2; 3].
Proof.
  assert (H : main web loads format_fixed6 plain reviews_mode config
              = Some reviews_report) by (vm_compute; reflexivity).
  split; [exact H|].
  destruct (equal_review_counts_keep_creation_order web loads format_fixed6 plain
              reviews_mode config reviews_report H eq_refl)
    as (st0 & Hagg & Hout & _ & _ & _ & _ & Hstable).
  assert (Hst : st0 = aggregated).
  { assert (Hrun : aggregate web loads config = Some aggregated)
      by (vm_compute; reflexivity).
    congruence. }
  subst st0; split; [exact Hout|]; split; [|reflexivity].
  rewrite (Hstable 2); reflexivity.
Defined.

(** Rounding to six decimals is off by at most half a millionth. *)
Lemma round6_close q : (Qabs (round6 q - q) <= 1 # 2000000)%Q.
Proof.
  unfold round6.
  pose proof (Qfloor_le (q * 1000000 + (1 # 2))) as Hle.
  pose proof (Qlt_floor (q * 1000000 + (1 # 2))) as Hlt.
  rewrite inject_Z_plus in Hlt; change (inject_Z 1) with 1%Q in Hlt.
  set (z := inject_Z (Qfloor (q * 1000000 + (1 # 2)))) in *.
  unfold Qdiv; change (/ 1000000)%Q with (1 # 1000000)%Q.
  apply Qabs_Qle_condition; split; lra.
Qed.

Lemma fixed6_rounds big : rounds_within fixed6 (1 # 2000000) big.
Proof.
  constructor; cbn [fixed6 value fzero of_int fdiv fadd].
  - reflexivity.
  - reflexivity.
  - intros x y _ _ _; apply round6_close.
  - intros x y _; apply round6_close.
Qed.

Lemma running_percentage_reaches_one_witness :
  main web loads format_fixed6 plain reviews_mode config = Some reviews_report /\
  last reviews_report EmptyString = "3,Bob,2,0.285714,1.000000" /\
  (running_percentage
     (last (printed_lines reviews_mode (fst (collect aggregated))
                          (snd (collect aggregated))) no_line) == 1)%Q /\
  leaderboard_in fixed6 review_count 7 1 0%Q
                 (sorted_reverse review_count (snd (collect aggregated)))
  = Some rounded_reviews /\
  r_running (last rounded_reviews no_rounded_line) = (999999 # 1000000)%Q /\
  (Qabs (r_running (last rounded_reviews no_rounded_line) - 1)
   <= 2 * inject_Z 3 * (1 # 2000000))%Q.
Proof.
  assert (H : main web loads format_fixed6 plain reviews_mode config
              = Some reviews_report) by (vm_compute; reflexivity).
  split; [exact H|]; split; [reflexivity|].
  destruct (running_percentage_reaches_one web loads format_fixed6 plain
              reviews_mode config reviews_report H (or_introl eq_refl))
    as (st0 & Hagg & _ & _ & _ & Hlast & Hrounded).
  assert (Hst : st0 = aggregated).
  { assert (Hrun : aggregate web loads config = Some aggregated)
      by (vm_compute; reflexivity).
    congruence. }
  subst st0; split; [apply Hlast; discriminate|].
  assert (Hloop : leaderboard_in fixed6 review_count 7 1 0%Q
                    (sorted_reverse review_count (snd (collect aggregated)))
                  = Some rounded_reviews) by (vm_compute; reflexivity).
  split; [exact Hloop|]; split; [reflexivity|].
  apply (Hrounded fixed6 (1 # 2000000)%Q 7 rounded_reviews no_rounded_line).
  - apply fixed6_rounds.
  - vm_compute; discriminate.
  - vm_compute; discriminate.
  - exact Hloop.
  - discriminate.
Defined.

Lemma zero_author_is_no_author_witness :
  process_message web loads [9] 1 before_103 message_of_zero = Some before_103 /\
  process_message web loads [9] 1 before_103 message_without_author
  = Some before_103.
Proof.
  destruct (zero_author_is_no_author web loads [9] 1 before_103 message_of_zero
              (JDict [("_account_id", JInt 0)]) eq_refl eq_refl)
    as (Hzero & _ & Hnone).
  split; [exact Hzero|].
  exact (proj1 (Hnone message_without_author eq_refl)).
Defined.

Lemma ignored_owner_skips_commit_only_witness :
  process_review web loads [9] before_103 change_103 = Some after_103 /\
  project_additions after_103 = project_additions before_103 + 7 /\
  total_commits after_103 = total_commits before_103 /\
  reviews_of after_103 2 = reviews_of before_103 2 + 1.
Proof.
  assert (H : process_review web loads [9] before_103 change_103 = Some after_103)
    by (vm_compute; reflexivity).
  destruct (ignored_owner_skips_commit_only web loads [9] before_103 change_103 9
              after_103 eq_refl eq_refl eq_refl H)
    as (Hadd & _ & Hcommits & _ & Hreviews & _).
  split; [exact H|]; split; [|split; [exact Hcommits|]].
  - rewrite Hadd; reflexivity.
  - rewrite (Hreviews 2); reflexivity.
Defined.

(** C5, as it is stated, fails: a body that does not begin with the prefix is
    parsed all the same, and no choice of four characters makes a missing
    prefix an error. *)
Lemma unprefixed_body_is_parsed :
  response_body_to_json loads "XXXX[]" = Some (JList []) /\
  ~ (exists prefix,
       String.length prefix = 4%nat /\
       forall text,
         response_body_to_json loads text = None <->
         (startswith prefix text = false \/ loads (drop 4 text) = None)).
Proof.
  split; [reflexivity|].
  intros (prefix & Hlen & Hclaim).
  assert (HX : startswith prefix "XXXX[]" = true).
  { destruct (startswith prefix "XXXX[]") eqn:E; [reflexivity|].
    assert (Hnone := proj2 (Hclaim "XXXX[]") (or_introl E)); discriminate. }
  assert (HY : startswith prefix "YYYY[]" = true).
  { destruct (startswith prefix "YYYY[]") eqn:E; [reflexivity|].
    assert (Hnone := proj2 (Hclaim "YYYY[]") (or_introl E)); discriminate. }
  destruct prefix as [|a prefix]; [discriminate|].
  cbn [startswith] in HX, HY.
  apply andb_true_iff in HX, HY; destruct HX as [HX _], HY as [HY _].
  apply Ascii.eqb_eq in HX, HY; congruence.
Qed.


End OnRecorded.

(** * Further results on the recorded responses *)

Module FurtherOnRecorded.
Import Recorded JsonReader.

Lemma format_fixed6_no_comma q : count_char "," (format_fixed6 q) = 0.
Proof.
  unfold format_fixed6; cbv zeta.
  rewrite !count_char_app, !count_char_str_of_int.
  assert (Hzeros : forall n, count_char "," (drop n "000000") = 0)
    by (intros n; do 7 (destruct n as [|n]; [reflexivity|]); reflexivity).
  rewrite Hzeros; destruct (Qnum q <? 0); reflexivity.
Qed.

Lemma every_contributor_is_reported_witness :
  aggregate web loads config = Some aggregated /\
  map account_id (snd (collect aggregated)) = [1; 2; 3].
Proof.
  assert (H : aggregate web loads config = Some aggregated)
    by (vm_compute; reflexivity).
  split; [exact H|].
  exact (proj1 (proj2 (every_contributor_is_reported web loads config aggregated H))).
Defined.

Lemma contributor_iff_credited_witness :
  aggregate web loads config = Some aggregated /\
  (0 < count_if (fun r => owned_by 3 r && commit_event [9] r)
                (processed_reviews web loads config)
   \/ 0 < sum_of (review_events web loads [9] 3) (processed_reviews web loads config)).
Proof.
  assert (H : aggregate web loads config = Some aggregated)
    by (vm_compute; reflexivity).
  split; [exact H|].
  apply (proj1 (contributor_iff_credited web loads config aggregated H 3)).
  cbn; auto.
Defined.

Lemma total_reviews_counts_crediting_messages_witness :
  aggregate web loads config = Some aggregated /\
  sum_of (crediting_messages web loads [9]) (processed_reviews web loads config) = 7.
Proof.
  assert (H : aggregate web loads config = Some aggregated)
    by (vm_compute; reflexivity).
  split; [exact H|].
  transitivity (total_reviews (fst (collect aggregated))); [|reflexivity].
  symmetry.
  exact (total_reviews_counts_crediting_messages web loads config aggregated H).
Defined.

Lemma summary_report_witness :
  main web loads format_fixed6 plain summary_mode config = Some summary_lines.
Proof.
  assert (H : aggregate web loads config = Some aggregated)
    by (vm_compute; reflexivity).
  rewrite (summary_report web loads format_fixed6 plain summary_mode config
             aggregated H eq_refl eq_refl eq_refl).
  vm_compute; reflexivity.
Defined.

Lemma failed_query_aborts_run_witness :
  aggregate web loads config_with_nova = None /\
  main web loads format_fixed6 plain reviews_mode config_with_nova = None.
Proof.
  apply (failed_query_aborts_run web loads format_fixed6 plain reviews_mode
           config_with_nova nova).
  - cbn; auto.
  - vm_compute; reflexivity.
Defined.

Lemma change_without_key_aborts_run_witness :
  aggregate broken_web loads config_with_glance = None /\
  main broken_web loads format_fixed6 plain summary_mode config_with_glance = None.
Proof.
  apply (change_without_key_aborts_run broken_web loads format_fixed6 plain
           summary_mode config_with_glance change_301).
  - vm_compute; do 4 right; left; reflexivity.
  - vm_compute; reflexivity.
Defined.

Lemma reports_never_divide_by_zero_witness :
  exists out, main web loads format_fixed6 plain commits_mode config = Some out.
Proof.
  apply (reports_never_divide_by_zero web loads format_fixed6 plain commits_mode
           config aggregated); vm_compute; reflexivity.
Defined.

Lemma ranks_are_consecutive_witness :
  main web loads format_fixed6 plain reviews_mode config = Some reviews_report /\
  map rank (printed_lines reviews_mode (fst (collect aggregated))
                          (snd (collect aggregated))) = [1; 2; 3] /\
  map line_count (printed_lines reviews_mode (fst (collect aggregated))
                                (snd (collect aggregated))) = [3; 2; 2].
Proof.
  assert (H : main web loads format_fixed6 plain reviews_mode config
              = Some reviews_report) by (vm_compute; reflexivity).
  split; [exact H|].
  destruct (ranks_are_consecutive web loads format_fixed6 plain reviews_mode
              config reviews_report H (or_introl eq_refl))
    as (st0 & Hagg & _ & Hranks & Hcounts & _).
  assert (Hst : st0 = aggregated).
  { assert (Hrun : aggregate web loads config = Some aggregated)
      by (vm_compute; reflexivity).
    congruence. }
  subst st0; split; [rewrite Hranks | rewrite Hcounts]; reflexivity.
Defined.

Lemma report_lines_have_four_commas_witness :
  Forall (fun text => count_char "," text = 4) reviews_report.
Proof.
  apply (report_lines_have_four_commas web loads format_fixed6 plain reviews_mode
           config reviews_report).
  - vm_compute; reflexivity.
  - left; reflexivity.
  - exact format_fixed6_no_comma.
Defined.

Lemma names_come_from_accounts_witness :
  aggregate web loads config = Some aggregated /\
  exists user,
    get_user_by_account_id web loads 1 = Some user /\
    getitem user "name" = Some (JStr "Lovelace, Ada").
Proof.
  assert (H : aggregate web loads config = Some aggregated)
    by (vm_compute; reflexivity).
  split; [exact H|].
  refine (proj2 (names_come_from_accounts web loads config aggregated H 1
                   (mkContributor 1 (JStr "Lovelace, Ada") 2 1) _)).
  cbn; auto.
Defined.

Lemma short_body_is_decoded_as_empty_text_witness :
  response_body_to_json loads ")]}'" = None.
Proof.
  rewrite (short_body_is_decoded_as_empty_text loads ")]}'");
    [reflexivity | cbn; lia].
Defined.

Lemma shares_are_fractions_witness :
  main web loads format_fixed6 plain commits_mode config = Some commits_report /\
  Forall (fun l => (0 < percentage l /\ percentage l <= 1)%Q)
         (printed_lines commits_mode (fst (collect aggregated))
                        (snd (collect aggregated))).
Proof.
  assert (H : main web loads format_fixed6 plain commits_mode config
              = Some commits_report) by (vm_compute; reflexivity).
  split; [exact H|].
  destruct (shares_are_fractions web loads format_fixed6 plain commits_mode
              config commits_report H (or_intror eq_refl))
    as (st0 & Hagg & _ & Hshares).
  assert (Hst : st0 = aggregated).
  { assert (Hrun : aggregate web loads config = Some aggregated)
      by (vm_compute; reflexivity).
    congruence. }
  subst st0; exact Hshares.
Defined.

Lemma repository_order_moves_no_counter_witness :
  aggregate wider_web loads keystone_first = Some after_keystone_first /\
  aggregate wider_web loads oslo_first = Some after_oslo_first /\
  constructed after_keystone_first = [1; 2; 3] /\
  constructed after_oslo_first = [3; 2; 1] /\
  total_commits after_oslo_first = total_commits after_keystone_first /\
  reviews_of after_oslo_first 2 = reviews_of after_keystone_first 2.
Proof.
  assert (H : aggregate wider_web loads keystone_first = Some after_keystone_first)
    by (vm_compute; reflexivity).
  assert (H' : aggregate wider_web loads oslo_first = Some after_oslo_first)
    by (vm_compute; reflexivity).
  destruct (repository_order_moves_no_counter wider_web loads keystone_first
              oslo_first after_keystone_first after_oslo_first
              eq_refl eq_refl (perm_swap oslo keystone []) H H')
    as (Htotal & _ & _ & _ & Hreviews & _).
  split; [exact H|]; split; [exact H'|].
  split; [reflexivity|]; split; [reflexivity|].
  split; [exact Htotal | exact (Hreviews 2)].
Defined.

End FurtherOnRecorded.
